(** * Drive link converter: the link-classification and URL-derivation core

    A shallow embedding of [src/LinkConverter.tsx] (the functions
    [extractGoogleFileId], [isProbablyGoogleLink], the [build...] URL
    templates, [convertLink] and the [useMemo] callback of
    [DriveLinkConverterPage]) together with the part of the JavaScript
    runtime these functions call: [String.prototype.trim], [toLowerCase],
    [includes], [match] on the six regular expressions of the program,
    [encodeURIComponent] and [decodeURIComponent].

    A JavaScript string is a sequence of UTF-16 code units; it is modelled
    as a list of numbers, each meant to be below [65536]. *)

From Stdlib Require Import List NArith ZArith Bool String Ascii Lia ZifyBool.
Import ListNotations.
Local Open Scope N_scope.

(* Lets [lia] reason about division and remainder by a constant. *)
Ltac Zify.zify_post_hook ::= Z.to_euclidean_division_equations.

(* Case analysis on the condition of a conditional of the goal. *)
Ltac case_if :=
  match goal with
  | |- context [if ?b then _ else _] =>
      let E := fresh "E" in destruct b eqn:E
  end.

(** ** Strings of the runtime *)

Definition jsstring := list N.

(** An ASCII literal of the source text. *)
Definition lit (s : string) : jsstring :=
  map N_of_ascii (list_ascii_of_string s).

(** Every code unit fits in sixteen bits. *)
Definition validUnits (s : jsstring) : bool :=
  forallb (fun c => c <? 65536) s.

Definition isHighSurrogate (c : N) : bool := (55296 <=? c) && (c <=? 56319).
Definition isLowSurrogate (c : N) : bool := (56320 <=? c) && (c <=? 57343).

(** [String.prototype.isWellFormed]: no unpaired surrogate. *)
Fixpoint isWellFormed (s : jsstring) : bool :=
  match s with
  | [] => true
  | c :: r =>
      if isHighSurrogate c then
        match r with
        | d :: r' => isLowSurrogate d && isWellFormed r'
        | [] => false
        end
      else if isLowSurrogate c then false
      else isWellFormed r
  end.

(** A string is truthy when it is not empty. *)
Definition truthy (s : jsstring) : bool :=
  match s with [] => false | _ :: _ => true end.

(** *** trim *)

(** WhiteSpace and LineTerminator of ECMAScript: TAB, LF, VT, FF, CR, SP,
    NBSP, U+1680, U+2000..U+200A, U+2028, U+2029, U+202F, U+205F, U+3000
    and U+FEFF. *)
Definition isWhiteSpace (c : N) : bool :=
  ((9 <=? c) && (c <=? 13)) || (c =? 32) || (c =? 160) || (c =? 5760)
  || ((8192 <=? c) && (c <=? 8202)) || (c =? 8232) || (c =? 8233)
  || (c =? 8239) || (c =? 8287) || (c =? 12288) || (c =? 65279).

Fixpoint trimStart (s : jsstring) : jsstring :=
  match s with
  | [] => []
  | c :: r => if isWhiteSpace c then trimStart r else s
  end.

Fixpoint trimEnd (s : jsstring) : jsstring :=
  match s with
  | [] => []
  | c :: r =>
      match trimEnd r with
      | [] => if isWhiteSpace c then [] else [c]
      | r' => c :: r'
      end
  end.

Definition trim (s : jsstring) : jsstring := trimEnd (trimStart s).

(** *** toLowerCase *)

(** The lower-case mapping of one code unit.  The letters A..Z map to
    a..z.  Two code points outside ASCII have a lower-case form that holds
    an ASCII letter: U+0130 (mapped to [i] followed by U+0307) and U+212A
    (the Kelvin sign, mapped to [k]).  Every other code unit outside ASCII
    is mapped by the Unicode tables to code units outside ASCII; the
    tables are not reproduced and such a unit is kept as it is. *)
Definition lowerUnit (c : N) : jsstring :=
  if (65 <=? c) && (c <=? 90) then [c + 32]
  else if c =? 304 then [105; 775]
  else if c =? 8490 then [107]
  else [c].

Definition toLowerCase (s : jsstring) : jsstring := flat_map lowerUnit s.

(** *** includes *)

Fixpoint startsWith (needle s : jsstring) : bool :=
  match needle, s with
  | [], _ => true
  | _ :: _, [] => false
  | a :: needle', c :: s' => (a =? c) && startsWith needle' s'
  end.

Fixpoint includes (needle s : jsstring) : bool :=
  startsWith needle s ||
  match s with
  | [] => false
  | _ :: s' => includes needle s'
  end.

(** ** The regular expressions of [extractGoogleFileId] *)

(** One position of the literal part of a pattern: a character, or a
    bracket class such as [[?&]]. *)
Inductive atom : Type :=
| Chr (c : N)
| Cls (cs : list N).

(** A pattern is its literal part; each of the six patterns ends with the
    same capturing group [([a-zA-Z0-9_-]+)]. *)
Definition pattern := list atom.

Definition chars (s : string) : pattern := map Chr (lit s).

(** The class [[a-zA-Z0-9_-]]. *)
Definition idChar (c : N) : bool :=
  ((97 <=? c) && (c <=? 122)) || ((65 <=? c) && (c <=? 90))
  || ((48 <=? c) && (c <=? 57)) || (c =? 95) || (c =? 45).

Definition atomMatches (a : atom) (c : N) : bool :=
  match a with
  | Chr x => x =? c
  | Cls cs => existsb (fun x => x =? c) cs
  end.

(** Matches the literal part at the head of [s]; the result is what
    follows it. *)
Fixpoint matchPrefix (p : pattern) (s : jsstring) : option jsstring :=
  match p with
  | [] => Some s
  | a :: p' =>
      match s with
      | [] => None
      | c :: s' => if atomMatches a c then matchPrefix p' s' else None
      end
  end.

Fixpoint takeWhile (f : N -> bool) (s : jsstring) : jsstring :=
  match s with
  | [] => []
  | c :: r => if f c then c :: takeWhile f r else []
  end.

(** [r] is empty or starts with a character that [f] rejects. *)
Definition headNot (f : N -> bool) (r : jsstring) : Prop :=
  match r with [] => True | c :: _ => f c = false end.

(** The pattern anchored at the head of [s]: the literal part, then the
    greedy group, which takes at least one character. *)
Definition matchHere (p : pattern) (s : jsstring) : option jsstring :=
  match matchPrefix p s with
  | None => None
  | Some rest =>
      match takeWhile idChar rest with
      | [] => None
      | id => Some id
      end
  end.

(** [s.match(p)] for a pattern without the global flag: the match at the
    leftmost position where the pattern matches; the value is the first
    capturing group (the [m[1]] of the source). *)
Fixpoint regexMatch (p : pattern) (s : jsstring) : option jsstring :=
  match matchHere p s with
  | Some id => Some id
  | None =>
      match s with
      | [] => None
      | _ :: s' => regexMatch p s'
      end
  end.

Definition patterns : list pattern :=
  [ chars "/file/d/";
    chars "/presentation/d/";
    chars "/document/d/";
    chars "/spreadsheets/d/";
    Cls (lit "?&") :: chars "id=";
    chars "/uc?id=" ].

(** No position of the pattern accepts a white-space character. *)
Definition spaceFreeAtom (a : atom) : bool :=
  match a with
  | Chr x => negb (isWhiteSpace x)
  | Cls cs => forallb (fun x => negb (isWhiteSpace x)) cs
  end.

Definition spaceFree (p : pattern) : bool := forallb spaceFreeAtom p.

(** The list without its sixth pattern, [/uc?id=]. *)
Definition patternsWithoutUc : list pattern :=
  [ chars "/file/d/";
    chars "/presentation/d/";
    chars "/document/d/";
    chars "/spreadsheets/d/";
    Cls (lit "?&") :: chars "id=" ].

(** The loop [for (const p of patterns)] with its early return. *)
Fixpoint firstMatch (ps : list pattern) (url : jsstring) : option jsstring :=
  match ps with
  | [] => None
  | p :: ps' =>
      match regexMatch p url with
      | Some g => if truthy g then Some g else firstMatch ps' url
      | None => firstMatch ps' url
      end
  end.

Definition extractWith (ps : list pattern) (input : jsstring)
  : option jsstring :=
  let url := trim input in
  if negb (truthy url) then None else firstMatch ps url.

Definition extractGoogleFileId (input : jsstring) : option jsstring :=
  extractWith patterns input.

Definition isProbablyGoogleLink (input : jsstring) : bool :=
  let s := toLowerCase (trim input) in
  includes (lit "drive.google.com") s || includes (lit "docs.google.com") s.

(** The two lines of [convertLink] that classify the trimmed input. *)
Definition classify (raw : jsstring) : bool * option jsstring :=
  let google := isProbablyGoogleLink raw in
  let fileId := if google then extractGoogleFileId raw else None in
  (google, fileId).

(** ** Exceptions *)

Inductive JsError : Type := URIError.

(** The outcome of a call that can throw. *)
Inductive completion (A : Type) : Type :=
| Normal (a : A)
| Throw (e : JsError).
Arguments Normal {A} a.
Arguments Throw {A} e.

Definition bind {A B} (c : completion A) (k : A -> completion B)
  : completion B :=
  match c with
  | Normal a => k a
  | Throw e => Throw e
  end.

Notation "x <- c ;; k" := (bind c (fun x => k))
  (at level 61, c at next level, right associativity).

(** ** encodeURIComponent and decodeURIComponent *)

(** Letters, digits and the marks [- _ . ! ~ * ' ( )] are left as they
    are. *)
Definition unescaped (c : N) : bool :=
  ((97 <=? c) && (c <=? 122)) || ((65 <=? c) && (c <=? 90))
  || ((48 <=? c) && (c <=? 57))
  || existsb (fun x => x =? c) (lit "-_.!~*'()").

Definition hexDigit (n : N) : N := if n <? 10 then 48 + n else 55 + n.

Definition percent (b : N) : jsstring :=
  [37; hexDigit (b / 16); hexDigit (b mod 16)].

Definition utf8 (cp : N) : list N :=
  if cp <? 128 then [cp]
  else if cp <? 2048 then [192 + cp / 64; 128 + cp mod 64]
  else if cp <? 65536 then
    [224 + cp / 4096; 128 + (cp / 64) mod 64; 128 + cp mod 64]
  else
    [240 + cp / 262144; 128 + (cp / 4096) mod 64;
     128 + (cp / 64) mod 64; 128 + cp mod 64].

Definition escapeCodePoint (cp : N) : jsstring := flat_map percent (utf8 cp).

Definition pairCodePoint (hi lo : N) : N :=
  (hi - 55296) * 1024 + (lo - 56320) + 65536.

(** [encodeURIComponent]: an unpaired surrogate throws a URIError. *)
Fixpoint encodeURIComponent (s : jsstring) : completion jsstring :=
  match s with
  | [] => Normal []
  | c :: r =>
      if unescaped c then
        e <- encodeURIComponent r ;; Normal (c :: e)
      else if isLowSurrogate c then Throw URIError
      else if isHighSurrogate c then
        match r with
        | d :: r' =>
            if isLowSurrogate d then
              e <- encodeURIComponent r' ;;
              Normal (escapeCodePoint (pairCodePoint c d) ++ e)
            else Throw URIError
        | [] => Throw URIError
        end
      else
        e <- encodeURIComponent r ;; Normal (escapeCodePoint c ++ e)
  end.

Definition hexValue (c : N) : option N :=
  if (48 <=? c) && (c <=? 57) then Some (c - 48)
  else if (65 <=? c) && (c <=? 70) then Some (c - 55)
  else if (97 <=? c) && (c <=? 102) then Some (c - 87)
  else None.

(** A decoded position: a code unit that was not escaped, or the octet of
    an escape [%XX]. *)
Inductive token : Type :=
| Unit (c : N)
| Octet (b : N).

Fixpoint unescapeOctets (s : jsstring) : completion (list token) :=
  match s with
  | [] => Normal []
  | c :: r =>
      if c =? 37 then
        match r with
        | h :: l :: r' =>
            match hexValue h, hexValue l with
            | Some x, Some y =>
                t <- unescapeOctets r' ;; Normal (Octet (16 * x + y) :: t)
            | _, _ => Throw URIError
            end
        | _ => Throw URIError
        end
      else
        t <- unescapeOctets r ;; Normal (Unit c :: t)
  end.

Definition isContinuation (b : N) : bool := (128 <=? b) && (b <=? 191).

Definition utf16 (cp : N) : jsstring :=
  if cp <? 65536 then [cp]
  else [55296 + (cp - 65536) / 1024; 56320 + (cp - 65536) mod 1024].

(** The octets of one code point, decoded; overlong forms, surrogates and
    values above U+10FFFF are not valid UTF-8. *)
Fixpoint decodeOctets (ts : list token) : completion jsstring :=
  match ts with
  | [] => Normal []
  | Unit c :: r => d <- decodeOctets r ;; Normal (c :: d)
  | Octet b :: r =>
      if b <? 128 then d <- decodeOctets r ;; Normal (b :: d)
      else if (192 <=? b) && (b <=? 223) then
        match r with
        | Octet b1 :: r1 =>
            let cp := (b - 192) * 64 + (b1 - 128) in
            if isContinuation b1 && (128 <=? cp) then
              d <- decodeOctets r1 ;; Normal (utf16 cp ++ d)
            else Throw URIError
        | _ => Throw URIError
        end
      else if (224 <=? b) && (b <=? 239) then
        match r with
        | Octet b1 :: Octet b2 :: r2 =>
            let cp := (b - 224) * 4096 + (b1 - 128) * 64 + (b2 - 128) in
            if isContinuation b1 && isContinuation b2 && (2048 <=? cp)
               && negb ((55296 <=? cp) && (cp <=? 57343)) then
              d <- decodeOctets r2 ;; Normal (utf16 cp ++ d)
            else Throw URIError
        | _ => Throw URIError
        end
      else if (240 <=? b) && (b <=? 247) then
        match r with
        | Octet b1 :: Octet b2 :: Octet b3 :: r3 =>
            let cp := (b - 240) * 262144 + (b1 - 128) * 4096
                      + (b2 - 128) * 64 + (b3 - 128) in
            if isContinuation b1 && isContinuation b2 && isContinuation b3
               && (65536 <=? cp) && (cp <=? 1114111) then
              d <- decodeOctets r3 ;; Normal (utf16 cp ++ d)
            else Throw URIError
        | _ => Throw URIError
        end
      else Throw URIError
  end.

Definition decodeURIComponent (s : jsstring) : completion jsstring :=
  t <- unescapeOctets s ;; decodeOctets t.

(** *** Reading a query parameter *)

Fixpoint afterChar (c : N) (s : jsstring) : option jsstring :=
  match s with
  | [] => None
  | x :: r => if x =? c then Some r else afterChar c r
  end.

Fixpoint splitOn (c : N) (s : jsstring) : list jsstring :=
  match s with
  | [] => [[]]
  | x :: r =>
      if x =? c then [] :: splitOn c r
      else
        match splitOn c r with
        | h :: t => (x :: h) :: t
        | [] => [[x]]
        end
  end.

Fixpoint stripPrefix (p s : jsstring) : option jsstring :=
  match p, s with
  | [], _ => Some s
  | _ :: _, [] => None
  | a :: p', c :: s' => if a =? c then stripPrefix p' s' else None
  end.

Fixpoint findParam (key : jsstring) (fields : list jsstring)
  : option jsstring :=
  match fields with
  | [] => None
  | f :: fs =>
      match stripPrefix (key ++ [61]) f with
      | Some v => Some v
      | None => findParam key fs
      end
  end.

(** The raw value of the query parameter [name] of [url]: the query
    starts after the first [?], ends at a [#], and its fields are
    separated by [&]. *)
Definition queryParam (name : string) (url : jsstring) : option jsstring :=
  match afterChar 63 url with
  | None => None
  | Some q =>
      findParam (lit name) (splitOn 38 (takeWhile (fun c => negb (c =? 35)) q))
  end.

(** A character that ends neither a field of a query nor the query. *)
Definition fieldChar (c : N) : bool := negb (c =? 38) && negb (c =? 35).

(** A Unicode scalar value: a code point that is not a surrogate. *)
Definition isScalar (cp : N) : bool :=
  (cp <? 55296) || ((57344 <=? cp) && (cp <=? 1114111)).

(** The percent-decoded value of a query parameter; [None] when the URL
    has no such parameter. *)
Definition decodedParam (name : string) (url : jsstring)
  : option (completion jsstring) :=
  option_map decodeURIComponent (queryParam name url).

(** Every code unit is an ASCII character. *)
Definition asciiOnly (s : jsstring) : bool := forallb (fun c => c <? 128) s.

(** ** The URL templates *)

Definition buildDriveDirectDownload (fileId : jsstring) : jsstring :=
  lit "https://drive.google.com/uc?export=download&id=" ++ fileId.

Definition buildDriveDirectView (fileId : jsstring) : jsstring :=
  lit "https://drive.google.com/uc?export=view&id=" ++ fileId.

Definition buildSlidesExportPptx (fileId : jsstring) : jsstring :=
  lit "https://docs.google.com/presentation/d/" ++ fileId
  ++ lit "/export/pptx".

Definition buildSlidesEmbed (fileId : jsstring) : jsstring :=
  lit "https://docs.google.com/presentation/d/" ++ fileId
  ++ lit "/embed?start=false&loop=false&delayms=3000".

Definition buildDocsViewer (urlToFile : jsstring) : completion jsstring :=
  e <- encodeURIComponent urlToFile ;;
  Normal (lit "https://docs.google.com/gview?embedded=true&url=" ++ e).

Definition buildMicrosoftOfficeViewer (urlToFile : jsstring)
  : completion jsstring :=
  e <- encodeURIComponent urlToFile ;;
  Normal (lit "https://view.officeapps.live.com/op/embed.aspx?src=" ++ e).

(** The two templates that [convertLink] writes inline in its pdf case. *)
Definition slidesExportPdf (id : jsstring) : jsstring :=
  lit "https://docs.google.com/presentation/d/" ++ id ++ lit "/export/pdf".

Definition documentExportPdf (id : jsstring) : jsstring :=
  lit "https://docs.google.com/document/d/" ++ id
  ++ lit "/export?format=pdf".

(** ** The resolver *)

Inductive FileType : Type := ppt | pdf | image | video | audio.

(** An absent field of the source record is [None]. *)
Record ConvertResult : Type := mkResult {
  fileId : option jsstring;
  exportUrl : option jsstring;
  embedUrl : option jsstring;
  previewUrl : option jsstring;
  notes : option (list jsstring);
  error : option jsstring
}.

Definition errorResult (msg : jsstring) : ConvertResult :=
  mkResult None None None None None (Some msg).

Definition emptyInputError : jsstring := lit "Paste a link first.".

Definition malformedGoogleError : jsstring :=
  lit "This looks like a Google link, but I couldn't extract the file ID. Please paste a full Drive/Docs link.".

Definition notGoogleNote : jsstring :=
  lit "This is not a Google Drive link. Using it as-is.".

(** The branch [if (!google)]: the trimmed input is used as a direct URL. *)
Definition convertDirect (direct : jsstring) (type : FileType)
  : completion ConvertResult :=
  match type with
  | ppt =>
      p <- buildMicrosoftOfficeViewer direct ;;
      Normal (mkResult None (Some direct) None (Some p)
                (Some [notGoogleNote;
                       lit "For PPT preview, the URL must be publicly accessible."])
                None)
  | pdf =>
      p <- buildDocsViewer direct ;;
      Normal (mkResult None (Some direct) None (Some p)
                (Some [notGoogleNote;
                       lit "If the PDF doesn't render, ensure the link is public and allows direct access."])
                None)
  | _ =>
      Normal (mkResult None (Some direct) None (Some direct)
                (Some [notGoogleNote]) None)
  end.

(** The [switch (type)] of a Google link; [raw] is the trimmed input.  The
    [default] case of the source is not reachable from a [FileType]. *)
Definition convertGoogle (raw id : jsstring) (type : FileType)
  : completion ConvertResult :=
  match type with
  | ppt =>
      let exportUrl := buildSlidesExportPptx id in
      let embedUrl := buildSlidesEmbed id in
      Normal (mkResult (Some id) (Some exportUrl) (Some embedUrl)
                (Some embedUrl)
                (Some [lit "Export URL downloads as PPTX.";
                       lit "Preview uses Google Slides embed.";
                       lit "If you want PPT-style preview, switch to Microsoft viewer (provided below)."])
                None)
  | pdf =>
      let lower := toLowerCase raw in
      let exportUrl := buildDriveDirectDownload id in
      let exportUrl :=
        if includes (lit "docs.google.com/presentation") lower then
          slidesExportPdf id
        else if includes (lit "docs.google.com/document") lower then
          documentExportPdf id
        else if includes (lit "docs.google.com/spreadsheets") lower then
          buildDriveDirectDownload id
        else exportUrl in
      p <- buildDocsViewer exportUrl ;;
      Normal (mkResult (Some id) (Some exportUrl) None (Some p)
                (Some [lit "Preview uses Google Docs Viewer.";
                       lit "Make sure the file is shared publicly (Anyone with the link "
                       ++ [8594] ++ lit " Viewer)."])
                None)
  | image =>
      let exportUrl := buildDriveDirectView id in
      Normal (mkResult (Some id) (Some exportUrl) None (Some exportUrl)
                (Some [lit "This works best when the Drive file is actually an image.";
                       lit "If it fails, your file may not be an image or it may not be public."])
                None)
  | video =>
      let exportUrl := buildDriveDirectDownload id in
      Normal (mkResult (Some id) (Some exportUrl) None (Some exportUrl)
                (Some [lit "For Drive videos, direct playback depends on CORS and file permissions.";
                       lit "If it doesn't play, try hosting on a CDN or use a streaming server."])
                None)
  | audio =>
      let exportUrl := buildDriveDirectDownload id in
      Normal (mkResult (Some id) (Some exportUrl) None (Some exportUrl)
                (Some [lit "For Drive audio, direct playback depends on permissions and browser support."])
                None)
  end.

(** [convertLink].  The test [google && !fileId] holds when no identifier
    was extracted (or an empty one); past it and past [if (!google)] the
    identifier [fileId!] is there. *)
Definition convertLink (input : jsstring) (type : FileType)
  : completion ConvertResult :=
  let raw := trim input in
  if negb (truthy raw) then Normal (errorResult emptyInputError)
  else
    match classify raw with
    | (true, None) => Normal (errorResult malformedGoogleError)
    | (true, Some id) =>
        if negb (truthy id) then Normal (errorResult malformedGoogleError)
        else convertGoogle raw id type
    | (false, _) => convertDirect raw type
    end.

Definition isPpt (type : FileType) : bool :=
  match type with ppt => true | _ => false end.

Definition msViewerNote : jsstring :=
  lit "Microsoft viewer enabled for preview.".

(** The [useMemo] callback of [DriveLinkConverterPage]: the result shown
    for the input, the type and the Microsoft-viewer toggle. *)
Definition pageResult (input : jsstring) (type : FileType)
    (forceMsViewer : bool) : completion ConvertResult :=
  r <- convertLink input type ;;
  match exportUrl r with
  | Some e =>
      if isPpt type && forceMsViewer && truthy e then
        p <- buildMicrosoftOfficeViewer e ;;
        Normal (mkResult (fileId r) (exportUrl r) (embedUrl r) (Some p)
                  (Some (match notes r with Some n => n | None => [] end
                         ++ [msViewerNote]))
                  (error r))
      else Normal r
  | None => Normal r
  end.

(** ** Sample inputs *)

Definition sampleSlidesLink : jsstring :=
  lit "https://docs.google.com/presentation/d/1KocQY1Q3rQfZGl8BTNSG8fEqGh-XpUq0/edit?usp=drive_link".

Definition sampleId : jsstring := lit "1KocQY1Q3rQfZGl8BTNSG8fEqGh-XpUq0".

Definition sampleSheetsLink : jsstring :=
  lit "https://docs.google.com/spreadsheets/d/abc123/edit#gid=0".

Definition sampleUpperLink : jsstring :=
  lit "https://DOCS.GOOGLE.COM/PRESENTATION/D/abc123/edit".

(** A direct link pasted with a space before it. *)
Definition samplePaddedLink : jsstring := lit " https://example.com/cat.png".

Definition sampleDirectLink : jsstring := lit "https://example.com/cat.png".

(** A Document link whose query also names the Slides path. *)
Definition sampleDocumentWithSlidesMarker : jsstring :=
  lit "https://docs.google.com/document/d/DOC1/edit?ref=docs.google.com/presentation".

(** A Sheets link whose query also names the Document path. *)
Definition sampleSheetsWithDocumentMarker : jsstring :=
  lit "https://docs.google.com/spreadsheets/d/SHEET1/edit?ref=docs.google.com/document".

(** The one-unit string made of the unpaired surrogate U+D800. *)
Definition loneSurrogate : jsstring := [55296].

(** A well-formed link with a space, a non-ASCII letter and a character
    outside the basic plane (a surrogate pair). *)
Definition sampleUnicodeLink : jsstring :=
  lit "https://example.com/a b?x=1&y=" ++ [233; 8364; 55357; 56832].

(** ** The specification's reading of the extractor

    Written from the words of the specification, to be compared with the
    functions above. *)

Module Spec.

(** [pre] is a string the literal part of [p] accepts. *)
Definition accepts (p : pattern) (pre : jsstring) : Prop :=
  Forall2 (fun a c => atomMatches a c = true) p pre.

(** The pattern matches somewhere in [s]: its literal part followed by at
    least one identifier character. *)
Definition occurs (p : pattern) (s : jsstring) : Prop :=
  exists l pre c r,
    s = l ++ pre ++ c :: r /\ accepts p pre /\ idChar c = true.

(** [id] is the identifier the pattern finds in [s]: at the leftmost
    place where the pattern matches, the maximal run of identifier
    characters after the literal part. *)
Definition finds (p : pattern) (s id : jsstring) : Prop :=
  exists l pre r,
    s = l ++ pre ++ id ++ r /\ accepts p pre /\
    id <> [] /\ Forall (fun c => idChar c = true) id /\
    headNot idChar r /\
    (forall l1 s1, s = l1 ++ s1 -> (List.length l1 < List.length l)%nat ->
       forall pre1 c1 r1, s1 = pre1 ++ c1 :: r1 -> accepts p pre1 ->
                          idChar c1 = false).

(** The six patterns in the order the specification lists them. *)
Definition orderedPatterns : list pattern :=
  [ chars "/file/d/"; chars "/presentation/d/"; chars "/document/d/";
    chars "/spreadsheets/d/"; Cls [63; 38] :: chars "id=";
    chars "/uc?id=" ].

(** The first pattern of the list that matches decides. *)
Definition extracts (ps : list pattern) (s id : jsstring) : Prop :=
  exists k p,
    nth_error ps k = Some p /\ finds p s id /\
    forall j q, (j < k)%nat -> nth_error ps j = Some q -> ~ occurs q s.

Definition extractsNothing (ps : list pattern) (s : jsstring) : Prop :=
  forall p, In p ps -> ~ occurs p s.

End Spec.

(** ** The rest of the page *)

(** *** classNames *)

(** An argument of [classNames]: a string, [false], [undefined] or
    [null]. *)
Inductive ClassArg : Type :=
| CStr (s : jsstring)
| CFalse
| CUndefined
| CNull.

(** [Boolean(x)]: of these values only a non-empty string is truthy. *)
Definition classTruthy (x : ClassArg) : bool :=
  match x with
  | CStr s => truthy s
  | _ => false
  end.

(** The string [join] writes for an element. *)
Definition argString (x : ClassArg) : jsstring :=
  match x with
  | CStr s => s
  | CFalse => lit "false"
  | CUndefined | CNull => []
  end.

(** [Array.prototype.join]. *)
Fixpoint join (sep : jsstring) (xs : list jsstring) : jsstring :=
  match xs with
  | [] => []
  | x :: rest =>
      match rest with
      | [] => x
      | _ :: _ => x ++ sep ++ join sep rest
      end
  end.

Definition classNames (xs : list ClassArg) : jsstring :=
  join (lit " ") (map argString (filter classTruthy xs)).

(** *** The table of file types *)

(** The icon components of the table. *)
Inductive Icon : Type :=
| PresentationIcon | FileTextIcon | ImageIcon | VideoIcon | MusicIcon.

Record FileTypeEntry : Type := mkEntry {
  key : FileType;
  label : jsstring;
  icon : Icon;
  hint : jsstring;
  description : jsstring
}.

Definition FILE_TYPES : list FileTypeEntry :=
  [ mkEntry ppt (lit "PPT / PPTX") PresentationIcon
      (lit "Uses Microsoft Office viewer")
      (lit "PowerPoint Presentation - Slideshow format for presentations");
    mkEntry pdf (lit "PDF") FileTextIcon
      (lit "Uses PDF viewer (iframe)")
      (lit "Portable Document Format - Universal document format for viewing and sharing");
    mkEntry image (lit "Image") ImageIcon
      (lit "Uses <img />")
      (lit "Image File - Pictures and graphics in various formats (PNG, JPG, GIF, etc.)");
    mkEntry video (lit "Video") VideoIcon
      (lit "Uses <video />")
      (lit "Video File - Motion picture content in formats like MP4, WebM, etc.");
    mkEntry audio (lit "Audio") MusicIcon
      (lit "Uses <audio />")
      (lit "Audio File - Sound content in formats like MP3, WAV, OGG, etc.") ].

(** [a === b] on file types. *)
Definition sameType (a b : FileType) : bool :=
  match a, b with
  | ppt, ppt | pdf, pdf | image, image | video, video | audio, audio => true
  | _, _ => false
  end.

(** [FILE_TYPES.find((t) => t.key === type)]. *)
Definition findFileType (type : FileType) : option FileTypeEntry :=
  find (fun t => sameType (key t) type) FILE_TYPES.

(** *** The preview *)

(** The element of the preview that carries the URL, with the attributes
    the source gives it (the wrappers and the style classes are left
    out). *)
Inductive Element : Type :=
| Iframe (title src : jsstring) (allowFullScreen : bool)
| Img (src alt loading : jsstring)
| VideoElement (src : jsstring) (controls : bool)
| AudioElement (src : jsstring) (controls : bool).

Definition elementSrc (e : Element) : jsstring :=
  match e with
  | Iframe _ src _ => src
  | Img src _ _ => src
  | VideoElement src _ => src
  | AudioElement src _ => src
  end.

(** An optional string is truthy when it is there and not empty. *)
Definition truthyOpt (o : option jsstring) : bool :=
  match o with
  | Some s => truthy s
  | None => false
  end.

(** The component [Preview]; [None] is its [return null]. *)
Definition Preview (type : FileType) (result : ConvertResult)
  : option Element :=
  match previewUrl result with
  | Some u =>
      if negb (truthy u) then None
      else
        match type with
        | ppt => Some (Iframe (lit "PPT Preview") u true)
        | pdf => Some (Iframe (lit "PDF Preview") u false)
        | image => Some (Img u (lit "Preview") (lit "lazy"))
        | video => Some (VideoElement u true)
        | audio => Some (AudioElement u true)
        end
  | None => None
  end.

(** What stands in the preview area of the page: the placeholder box
    with its heading and its text, or the component [Preview] with what it
    renders. *)
Inductive PreviewArea : Type :=
| Placeholder (heading text : jsstring)
| PreviewComponent (rendered : option Element).

(** The preview area: the placeholder when there is no preview URL or
    there is an error, the component otherwise. *)
Definition previewArea (type : FileType) (result : ConvertResult)
  : PreviewArea :=
  if negb (truthyOpt (previewUrl result)) || truthyOpt (error result)
  then
    Placeholder (lit "Paste a link to preview")
      (lit "Choose a file type, paste a link, and the preview will render here.")
  else PreviewComponent (Preview type result).

(** [const outputUrl = result.exportUrl ?? ""]. *)
Definition outputUrl (result : ConvertResult) : jsstring :=
  match exportUrl result with
  | Some e => e
  | None => []
  end.

(** The [disabled] attribute of the copy button. *)
Definition copyDisabled (result : ConvertResult) : bool :=
  negb (truthy (outputUrl result)).

(** The Microsoft viewer URL of the block of alternatives, computed while
    rendering when [type === "ppt" && result.exportUrl]. *)
Definition alternativeViewerUrl (type : FileType) (result : ConvertResult)
  : option (completion jsstring) :=
  match exportUrl result with
  | Some e =>
      if isPpt type && truthy e then Some (buildMicrosoftOfficeViewer e)
      else None
  | None => None
  end.

(** *** The state of the page *)

Record PageState : Type := mkState {
  stType : FileType;
  stInput : jsstring;
  stCopied : bool;
  stForceMsViewer : bool
}.

Definition initialInput : jsstring :=
  lit "https://docs.google.com/presentation/d/1KocQY1Q3rQfZGl8BTNSG8fEqGh-XpUq0/edit?usp=drive_link&ouid=115550835616350388612&rtpof=true&sd=true".

Definition initialState : PageState := mkState ppt initialInput false false.

(** What the user and the clipboard timer can do: choose a type, flip
    the Microsoft-viewer toggle, edit the text, press reset; a copy that
    completes and the timeout that follows it. *)
Inductive Event : Type :=
| ClickType (t : FileType)
| ClickToggle
| ChangeInput (s : jsstring)
| ClickReset
| CopyDone
| CopyTimeout.

(** The toggle is rendered only while the type is ppt. *)
Definition available (s : PageState) (ev : Event) : bool :=
  match ev with
  | ClickToggle => isPpt (stType s)
  | _ => true
  end.

(** The state setters the handlers call. *)
Definition handle (s : PageState) (ev : Event) : PageState :=
  match ev with
  | ClickType t => mkState t (stInput s) (stCopied s) (stForceMsViewer s)
  | ClickToggle =>
      mkState (stType s) (stInput s) (stCopied s) (negb (stForceMsViewer s))
  | ChangeInput i => mkState (stType s) i (stCopied s) (stForceMsViewer s)
  | ClickReset => mkState (stType s) [] false (stForceMsViewer s)
  | CopyDone => mkState (stType s) (stInput s) true (stForceMsViewer s)
  | CopyTimeout => mkState (stType s) (stInput s) false (stForceMsViewer s)
  end.

(** The effect with dependency [type]: it runs when the type has changed
    and switches the toggle off when the type is not ppt. *)
Definition typeEffect (before after : PageState) : PageState :=
  if sameType (stType before) (stType after) then after
  else if isPpt (stType after) then after
  else mkState (stType after) (stInput after) (stCopied after) false.

Definition step (s : PageState) (ev : Event) : PageState :=
  if available s ev then typeEffect s (handle s ev) else s.

Definition run (evs : list Event) : PageState :=
  fold_left step evs initialState.

(** The result the page shows in a state. *)
Definition shownResult (s : PageState) : completion ConvertResult :=
  pageResult (stInput s) (stType s) (stForceMsViewer s).

(** ** Deciding what a pattern or a needle finds in a template

    A template is a fixed text, an identifier, a fixed text.  The checks
    below look only at the fixed texts and hold for every identifier. *)

(** The position accepts some identifier character. *)
Definition atomAcceptsId (a : atom) : bool :=
  match a with
  | Chr x => idChar x
  | Cls cs => existsb idChar cs
  end.

(** The pattern does not match at the head of an identifier run followed
    by [q], however long the run is. *)
Fixpoint idClear (p : pattern) (q : jsstring) : bool :=
  match matchHere p q with None => true | Some _ => false end &&
  match p with
  | [] => false
  | a :: p' => if atomAcceptsId a then idClear p' q else true
  end.

(** The pattern does not match at the head of [s], an identifier run and
    [q]. *)
Fixpoint hereClear (p : pattern) (s q : jsstring) : bool :=
  match p, s with
  | [], [] => false
  | [], c :: _ => negb (idChar c)
  | _ :: _, [] => idClear p q
  | a :: p', c :: s' => if atomMatches a c then hereClear p' s' q else true
  end.

(** The pattern matches at no position of [s] when [s] is followed by
    [tail], an identifier run and [q]. *)
Fixpoint scanClear (p : pattern) (s tail q : jsstring) : bool :=
  match s with
  | [] => true
  | _ :: s' => hereClear p (s ++ tail) q && scanClear p s' tail q
  end.

Definition startsWithId (p : pattern) : bool :=
  match p with
  | [] => true
  | a :: _ => atomAcceptsId a
  end.

(** The pattern matches nowhere in [pre], an identifier run, [q]. *)
Definition patternAbsent (p : pattern) (pre q : jsstring) : bool :=
  scanClear p pre [] q && negb (startsWithId p) &&
  match regexMatch p q with None => true | Some _ => false end.

(** The leftmost match of the pattern in [pre ++ mark], an identifier
    run, [q] is at [mark], and its group is the whole run. *)
Definition patternHits (p : pattern) (pre mark q : jsstring) : bool :=
  scanClear p pre mark q &&
  match matchPrefix p mark with Some [] => true | _ => false end &&
  match q with [] => true | c :: _ => negb (idChar c) end.

(** The same for [includes]: the needle does not start at the head of an
    identifier run followed by [q]. *)
Fixpoint needleIdClear (n q : jsstring) : bool :=
  negb (startsWith n q) &&
  match n with
  | [] => false
  | x :: n' => if idChar x then needleIdClear n' q else true
  end.

Fixpoint needleHereClear (n s q : jsstring) : bool :=
  match n, s with
  | [], _ => false
  | _ :: _, [] => needleIdClear n q
  | x :: n', c :: s' => if x =? c then needleHereClear n' s' q else true
  end.

Fixpoint needleScanClear (n s q : jsstring) : bool :=
  match s with
  | [] => true
  | _ :: s' => needleHereClear n s q && needleScanClear n s' q
  end.

(** The needle occurs nowhere in [pre], an identifier run, [q]. *)
Definition needleAbsent (n pre q : jsstring) : bool :=
  needleScanClear n pre q && needleIdClear n q && negb (includes n q).

(** A character [encodeURIComponent] can write: an unescaped character,
    [%] or an upper-case hexadecimal digit. *)
Definition escapedChar (c : N) : bool :=
  unescaped c || (c =? 37) || ((48 <=? c) && (c <=? 57))
  || ((65 <=? c) && (c <=? 70)).

(** A run of identifier characters. *)
Definition idRun (id : jsstring) : bool := forallb idChar id.

(** * Properties *)

(** ** trim *)

Lemma trimEnd_cons_nonspace c r :
  isWhiteSpace c = false -> trimEnd (c :: r) = c :: trimEnd r.
Proof.
  intros H. simpl. destruct (trimEnd r); [rewrite H|]; reflexivity.
Qed.

Lemma trimEnd_idem s : trimEnd (trimEnd s) = trimEnd s.
Proof.
  induction s as [|c r IH]; [reflexivity|].
  simpl. destruct (trimEnd r) as [|d r'] eqn:E.
  - destruct (isWhiteSpace c) eqn:W; [reflexivity|].
    simpl. rewrite W. reflexivity.
  - change (trimEnd (c :: d :: r')) with
      (match trimEnd (d :: r') with
       | [] => if isWhiteSpace c then [] else [c]
       | x => c :: x
       end).
    rewrite IH. reflexivity.
Qed.

Lemma trimStart_head s :
  match trimStart s with
  | [] => True
  | c :: _ => isWhiteSpace c = false
  end.
Proof.
  induction s as [|c r IH]; simpl; [exact I|].
  destruct (isWhiteSpace c) eqn:W; [exact IH | exact W].
Qed.

Lemma trimStart_trim s : trimStart (trim s) = trim s.
Proof.
  unfold trim. pose proof (trimStart_head s) as H.
  destruct (trimStart s) as [|c r]; [reflexivity|].
  rewrite (trimEnd_cons_nonspace _ _ H). simpl. rewrite H. reflexivity.
Qed.

Lemma trim_idem s : trim (trim s) = trim s.
Proof.
  unfold trim at 1. rewrite trimStart_trim. unfold trim.
  apply trimEnd_idem.
Qed.

Lemma isProbablyGoogleLink_trim s :
  isProbablyGoogleLink (trim s) = isProbablyGoogleLink s.
Proof. unfold isProbablyGoogleLink. rewrite trim_idem. reflexivity. Qed.

Lemma extractWith_trim ps s : extractWith ps (trim s) = extractWith ps s.
Proof. unfold extractWith. rewrite trim_idem. reflexivity. Qed.

Lemma classify_trim s :
  classify (trim s) = (isProbablyGoogleLink s,
                       if isProbablyGoogleLink s then extractGoogleFileId s
                       else None).
Proof.
  unfold classify, extractGoogleFileId.
  rewrite isProbablyGoogleLink_trim, extractWith_trim. reflexivity.
Qed.

(** ** The matcher against the specification's reading *)

Lemma matchPrefix_Some p : forall s rest,
  matchPrefix p s = Some rest ->
  exists pre, s = pre ++ rest /\ Spec.accepts p pre.
Proof.
  induction p as [|a p IH]; intros s rest H; simpl in H.
  - inversion H; subst. exists []. split; [reflexivity | constructor].
  - destruct s as [|c s']; [discriminate|].
    destruct (atomMatches a c) eqn:A; [|discriminate].
    destruct (IH _ _ H) as (pre & -> & Hp).
    exists (c :: pre). split; [reflexivity | constructor; assumption].
Qed.

Lemma matchPrefix_accepts p pre rest :
  Spec.accepts p pre -> matchPrefix p (pre ++ rest) = Some rest.
Proof.
  intros H. induction H as [|a c p pre A _ IH]; simpl; [reflexivity|].
  rewrite A. exact IH.
Qed.

Lemma takeWhile_split f s :
  exists r, s = takeWhile f s ++ r /\ headNot f r /\
            Forall (fun c => f c = true) (takeWhile f s).
Proof.
  induction s as [|c s IH]; simpl.
  - exists []. repeat split. constructor.
  - destruct (f c) eqn:F.
    + destruct IH as (r & E & Hr & Ha). exists r. repeat split.
      * simpl. f_equal. exact E.
      * exact Hr.
      * constructor; assumption.
    + exists (c :: s). repeat split; [exact F | constructor].
Qed.

Lemma takeWhile_maximal f id r :
  Forall (fun c => f c = true) id -> headNot f r ->
  takeWhile f (id ++ r) = id.
Proof.
  intros Ha Hr. induction Ha as [|c id Hc _ IH]; simpl.
  - destruct r as [|d r]; simpl in *; [reflexivity|].
    rewrite Hr. reflexivity.
  - rewrite Hc, IH. reflexivity.
Qed.

Lemma matchHere_Some p s id :
  matchHere p s = Some id ->
  exists pre r, s = pre ++ id ++ r /\ Spec.accepts p pre /\ id <> [] /\
                Forall (fun c => idChar c = true) id /\ headNot idChar r.
Proof.
  unfold matchHere. intros H.
  destruct (matchPrefix p s) as [rest|] eqn:M; [|discriminate].
  destruct (matchPrefix_Some _ _ _ M) as (pre & -> & Hp).
  destruct (takeWhile_split idChar rest) as (r & E & Hr & Ha).
  destruct (takeWhile idChar rest) as [|c t] eqn:T; [discriminate|].
  inversion H; subst id. exists pre, r. repeat split; try assumption.
  - rewrite E at 1. reflexivity.
  - discriminate.
Qed.

Lemma matchHere_intro p pre id r :
  Spec.accepts p pre -> id <> [] ->
  Forall (fun c => idChar c = true) id -> headNot idChar r ->
  matchHere p (pre ++ id ++ r) = Some id.
Proof.
  intros Hp Hne Ha Hr. unfold matchHere.
  rewrite (matchPrefix_accepts _ _ _ Hp), (takeWhile_maximal _ _ _ Ha Hr).
  destruct id; [contradiction | reflexivity].
Qed.

Lemma matchHere_None p s :
  matchHere p s = None <->
  (forall pre c r, s = pre ++ c :: r -> Spec.accepts p pre ->
                   idChar c = false).
Proof.
  split.
  - intros H pre c r -> Hp. unfold matchHere in H.
    rewrite (matchPrefix_accepts _ _ _ Hp) in H. simpl in H.
    destruct (idChar c); [discriminate | reflexivity].
  - intros H. destruct (matchHere p s) as [id|] eqn:M; [|reflexivity].
    destruct (matchHere_Some _ _ _ M) as (pre & r & E & Hp & Hne & Ha & _).
    destruct id as [|c t]; [contradiction|].
    inversion Ha; subst.
    rewrite (H pre c (t ++ r) eq_refl Hp) in *. discriminate.
Qed.

Lemma regexMatch_finds p : forall s id,
  regexMatch p s = Some id -> Spec.finds p s id.
Proof.
  induction s as [|c s IH]; intros id H; simpl in H.
  - destruct (matchHere p []) as [x|] eqn:M; [|discriminate].
    inversion H; subst x.
    destruct (matchHere_Some _ _ _ M) as (pre & r & E & Hp & Hne & Ha & Hr).
    exists [], pre, r. repeat split; try assumption.
    intros l1 s1 _ Hl. simpl in Hl. lia.
  - destruct (matchHere p (c :: s)) as [x|] eqn:M.
    + inversion H; subst x.
      destruct (matchHere_Some _ _ _ M) as (pre & r & E & Hp & Hne & Ha & Hr).
      exists [], pre, r. repeat split; try assumption.
      intros l1 s1 _ Hl. simpl in Hl. lia.
    + destruct (IH _ H) as (l & pre & r & E & Hp & Hne & Ha & Hr & Hl).
      exists (c :: l), pre, r. repeat split; try assumption.
      * simpl. f_equal. exact E.
      * intros l1 s1 E1 Hlen pre1 c1 r1 E2 Hp1.
        destruct l1 as [|d l1]; simpl in E1.
        -- subst s1. apply (proj1 (matchHere_None _ _) M pre1 c1 r1 E2 Hp1).
        -- inversion E1; subst d. simpl in Hlen.
           apply (Hl l1 s1 H2 ltac:(lia) pre1 c1 r1 E2 Hp1).
Qed.

Lemma finds_regexMatch p s id :
  Spec.finds p s id -> regexMatch p s = Some id.
Proof.
  intros (l & pre & r & E & Hp & Hne & Ha & Hr & Hl).
  revert s E Hl. induction l as [|c l IH]; intros s E Hl.
  - simpl in E. subst s.
    destruct (pre ++ id ++ r) eqn:S; simpl;
      rewrite <- S, (matchHere_intro _ _ _ _ Hp Hne Ha Hr); reflexivity.
  - simpl in E. subst s. simpl.
    assert (M : matchHere p (c :: l ++ pre ++ id ++ r) = None).
    { apply matchHere_None. intros pre1 c1 r1 E1 Hp1.
      apply (Hl [] _ eq_refl ltac:(simpl; lia) pre1 c1 r1 E1 Hp1). }
    rewrite M. apply IH; [reflexivity|].
    intros l1 s1 E1 Hlen. apply (Hl (c :: l1) s1).
    + simpl. f_equal. exact E1.
    + simpl. lia.
Qed.

Lemma finds_occurs p s id : Spec.finds p s id -> Spec.occurs p s.
Proof.
  intros (l & pre & r & E & Hp & Hne & Ha & _).
  destruct id as [|c t]; [contradiction|]. inversion Ha; subst.
  exists l, pre, c, (t ++ r). repeat split; assumption.
Qed.

Lemma regexMatch_None p s :
  regexMatch p s = None <-> ~ Spec.occurs p s.
Proof.
  split.
  - induction s as [|c s IH]; intros H (l & pre & x & r & E & Hp & Hx).
    + destruct l, pre; discriminate.
    + simpl in H. destruct (matchHere p (c :: s)) eqn:M; [discriminate|].
      destruct l as [|d l].
      * simpl in E. rewrite (proj1 (matchHere_None _ _) M pre x r E Hp) in Hx.
        discriminate.
      * inversion E; subst. apply (IH H).
        exists l, pre, x, r. repeat split; assumption.
  - intros H. destruct (regexMatch p s) eqn:R; [|reflexivity].
    exfalso. apply H. exact (finds_occurs _ _ _ (regexMatch_finds _ _ _ R)).
Qed.

Lemma regexMatch_truthy p s id : regexMatch p s = Some id -> truthy id = true.
Proof.
  intros H. destruct (regexMatch_finds _ _ _ H) as (_ & _ & _ & _ & _ & Hne & _).
  destruct id; [contradiction | reflexivity].
Qed.

Lemma regexMatch_idChars p s id :
  regexMatch p s = Some id -> Forall (fun c => idChar c = true) id.
Proof.
  intros H.
  destruct (regexMatch_finds _ _ _ H) as (_ & _ & _ & _ & _ & _ & Ha & _).
  exact Ha.
Qed.

Lemma firstMatch_extracts ps : forall s id,
  firstMatch ps s = Some id <-> Spec.extracts ps s id.
Proof.
  induction ps as [|p ps IH]; intros s id; simpl.
  - split; [discriminate|]. intros (k & q & Hk & _). destruct k; discriminate.
  - split.
    + destruct (regexMatch p s) as [g|] eqn:R.
      * rewrite (regexMatch_truthy _ _ _ R). intros H; inversion H; subst g.
        exists 0%nat, p. repeat split.
        -- apply regexMatch_finds. exact R.
        -- intros j q Hj. lia.
      * intros H. apply IH in H. destruct H as (k & q & Hk & Hf & Hl).
        exists (S k), q. repeat split; try assumption.
        intros j q' Hj Hq. destruct j as [|j]; simpl in Hq.
        -- inversion Hq; subst q'. apply regexMatch_None. exact R.
        -- apply (Hl j q'); [lia | exact Hq].
    + intros (k & q & Hk & Hf & Hl). destruct k as [|k]; simpl in Hk.
      * inversion Hk; subst q. rewrite (finds_regexMatch _ _ _ Hf).
        rewrite (regexMatch_truthy _ _ _ (finds_regexMatch _ _ _ Hf)).
        reflexivity.
      * assert (R : regexMatch p s = None).
        { apply regexMatch_None. apply (Hl 0%nat p); [lia | reflexivity]. }
        rewrite R. apply IH. exists k, q. repeat split; try assumption.
        intros j q' Hj Hq. apply (Hl (S j) q'); [lia | exact Hq].
Qed.

Lemma firstMatch_nothing ps : forall s,
  firstMatch ps s = None <-> Spec.extractsNothing ps s.
Proof.
  induction ps as [|p ps IH]; intros s; simpl.
  - split; [intros _ q []| reflexivity].
  - split.
    + destruct (regexMatch p s) as [g|] eqn:R.
      * rewrite (regexMatch_truthy _ _ _ R). discriminate.
      * intros H q [<-|Hq]; [apply regexMatch_None; exact R|].
        apply (proj1 (IH s) H q Hq).
    + intros H.
      assert (R : regexMatch p s = None).
      { apply regexMatch_None. apply H. left. reflexivity. }
      rewrite R. apply IH. intros q Hq. apply H. right. exact Hq.
Qed.

(** ** Trimming does not change what the patterns find *)

Lemma idChar_not_space c : idChar c = true -> isWhiteSpace c = false.
Proof. unfold idChar, isWhiteSpace. lia. Qed.

Lemma spaceFreeAtom_rejects a c :
  spaceFreeAtom a = true -> isWhiteSpace c = true -> atomMatches a c = false.
Proof.
  destruct a as [x|cs]; simpl; intros Ha Hc.
  - destruct (N.eqb_spec x c) as [->|]; [|reflexivity].
    rewrite Hc in Ha. discriminate.
  - induction cs as [|x cs IH]; simpl in *; [reflexivity|].
    apply andb_true_iff in Ha. destruct Ha as [Hx Hcs].
    rewrite (IH Hcs), orb_false_r.
    destruct (N.eqb_spec x c) as [->|]; [|reflexivity].
    rewrite Hc in Hx. discriminate.
Qed.

Lemma takeWhile_idChar_spaces t w :
  Forall (fun c => isWhiteSpace c = true) w ->
  takeWhile idChar (t ++ w) = takeWhile idChar t.
Proof.
  intros Hw. induction t as [|c t IH]; simpl.
  - destruct Hw as [|c w Hc _]; [reflexivity|]. simpl.
    destruct (idChar c) eqn:I; [|reflexivity].
    rewrite (idChar_not_space _ I) in Hc. discriminate.
  - rewrite IH. reflexivity.
Qed.

Lemma matchHere_spaces p w :
  spaceFree p = true -> Forall (fun c => isWhiteSpace c = true) w ->
  forall t, matchHere p (t ++ w) = matchHere p t.
Proof.
  intros Hp Hw. unfold matchHere.
  induction p as [|a p IH]; intros t; simpl.
  - rewrite (takeWhile_idChar_spaces _ _ Hw). reflexivity.
  - simpl in Hp. apply andb_true_iff in Hp. destruct Hp as [Ha Hp].
    destruct t as [|c t]; simpl.
    + destruct Hw as [|c w Hc _]; [reflexivity|].
      rewrite (spaceFreeAtom_rejects _ _ Ha Hc). reflexivity.
    + destruct (atomMatches a c); [apply (IH Hp) | reflexivity].
Qed.

Lemma matchHere_nil p : matchHere p [] = None.
Proof. unfold matchHere. destruct p; reflexivity. Qed.

Lemma matchHere_space p c r :
  spaceFree p = true -> isWhiteSpace c = true -> matchHere p (c :: r) = None.
Proof.
  intros Hp Hc. unfold matchHere. destruct p as [|a p]; simpl.
  - destruct (idChar c) eqn:I; [|reflexivity].
    rewrite (idChar_not_space _ I) in Hc. discriminate.
  - simpl in Hp. apply andb_true_iff in Hp. destruct Hp as [Ha _].
    rewrite (spaceFreeAtom_rejects _ _ Ha Hc). reflexivity.
Qed.

Lemma regexMatch_all_spaces p w :
  spaceFree p = true -> Forall (fun c => isWhiteSpace c = true) w ->
  regexMatch p w = None.
Proof.
  intros Hp Hw. induction Hw as [|c w Hc _ IH]; simpl.
  - rewrite matchHere_nil. reflexivity.
  - rewrite (matchHere_space _ _ _ Hp Hc). exact IH.
Qed.

Lemma regexMatch_spaces_after p w :
  spaceFree p = true -> Forall (fun c => isWhiteSpace c = true) w ->
  forall t, regexMatch p (t ++ w) = regexMatch p t.
Proof.
  intros Hp Hw. induction t as [|c t IH].
  - simpl. rewrite matchHere_nil. apply regexMatch_all_spaces; assumption.
  - change ((c :: t) ++ w) with (c :: (t ++ w)).
    cbn [regexMatch]. rewrite <- IH.
    change (c :: (t ++ w)) with ((c :: t) ++ w).
    rewrite (matchHere_spaces _ _ Hp Hw). reflexivity.
Qed.

Lemma regexMatch_trimStart p s :
  spaceFree p = true -> regexMatch p (trimStart s) = regexMatch p s.
Proof.
  intros Hp. induction s as [|c s IH]; [reflexivity|].
  cbn [trimStart]. destruct (isWhiteSpace c) eqn:W; [|reflexivity].
  rewrite IH. cbn [regexMatch]. rewrite (matchHere_space _ _ _ Hp W).
  reflexivity.
Qed.

Lemma trimEnd_split s :
  exists w, s = trimEnd s ++ w /\ Forall (fun c => isWhiteSpace c = true) w.
Proof.
  induction s as [|c s (w & E & Hw)]; simpl.
  - exists []. split; [reflexivity | constructor].
  - destruct (trimEnd s) as [|d t] eqn:T.
    + simpl in E. subst w. destruct (isWhiteSpace c) eqn:W.
      * exists (c :: s). split; [reflexivity | constructor; assumption].
      * exists s. split; [reflexivity | assumption].
    + exists w. split; [|assumption]. simpl. f_equal. exact E.
Qed.

Lemma regexMatch_trim p s :
  spaceFree p = true -> regexMatch p (trim s) = regexMatch p s.
Proof.
  intros Hp. unfold trim.
  destruct (trimEnd_split (trimStart s)) as (w & E & Hw).
  rewrite <- (regexMatch_trimStart p s Hp). rewrite E at 2.
  rewrite (regexMatch_spaces_after _ _ Hp Hw). reflexivity.
Qed.

Lemma firstMatch_trim ps s :
  forallb spaceFree ps = true -> firstMatch ps (trim s) = firstMatch ps s.
Proof.
  induction ps as [|p ps IH]; simpl; intros H; [reflexivity|].
  apply andb_true_iff in H. destruct H as [Hp Hps].
  rewrite (regexMatch_trim _ _ Hp), (IH Hps). reflexivity.
Qed.

Lemma firstMatch_nil ps : firstMatch ps [] = None.
Proof.
  induction ps as [|p ps IH]; simpl; [reflexivity|].
  rewrite matchHere_nil. exact IH.
Qed.

Lemma extractWith_firstMatch ps s :
  forallb spaceFree ps = true -> extractWith ps s = firstMatch ps s.
Proof.
  intros H. unfold extractWith. rewrite <- (firstMatch_trim ps s H).
  destruct (trim s); [symmetry; apply firstMatch_nil | reflexivity].
Qed.

Lemma patterns_spaceFree : forallb spaceFree patterns = true.
Proof. reflexivity. Qed.

(** ** The pattern [/uc?id=] is covered by [[?&]id=] *)

Lemma accepts_chars_eq (l pre : jsstring) :
  Spec.accepts (map Chr l) pre -> pre = l.
Proof.
  revert pre. induction l as [|x l IH]; intros pre H; inversion H; subst.
  - reflexivity.
  - simpl in H2. apply N.eqb_eq in H2. subst. f_equal. apply IH. assumption.
Qed.

Lemma accepts_chars (l : jsstring) : Spec.accepts (map Chr l) l.
Proof.
  induction l as [|x l IH]; constructor; [apply N.eqb_refl | exact IH].
Qed.

Lemma occurs_uc_id s :
  Spec.occurs (chars "/uc?id=") s ->
  Spec.occurs (Cls (lit "?&") :: chars "id=") s.
Proof.
  intros (l & pre & c & r & E & Hp & Hc).
  apply accepts_chars_eq in Hp. subst pre.
  exists (l ++ lit "/uc"), (lit "?id="), c, r. repeat split.
  - rewrite E, <- app_assoc. reflexivity.
  - constructor; [reflexivity | apply (accepts_chars (lit "id="))].
  - exact Hc.
Qed.

Lemma firstMatch_redundant_last q s : forall ps,
  (exists p, In p ps /\ (Spec.occurs q s -> Spec.occurs p s)) ->
  firstMatch (ps ++ [q]) s = firstMatch ps s.
Proof.
  induction ps as [|p ps IH]; intros (p0 & Hin & Himp); [destruct Hin|].
  simpl. destruct (regexMatch p s) as [g|] eqn:R.
  - rewrite (regexMatch_truthy _ _ _ R). reflexivity.
  - destruct Hin as [<-|Hin].
    + assert (Q : regexMatch q s = None).
      { apply regexMatch_None. intros Hq.
        apply (proj1 (regexMatch_None _ _) R). exact (Himp Hq). }
      clear IH. induction ps as [|p' ps IH']; simpl.
      * rewrite Q. reflexivity.
      * destruct (regexMatch p' s) as [g|] eqn:R'.
        -- destruct (truthy g); [reflexivity | exact IH'].
        -- exact IH'.
    + apply IH. exists p0. split; assumption.
Qed.

(** ** Percent-encoding *)

(** Induction on a string where a step may consume one or two code units. *)
Lemma jsstring_pair_ind (P : jsstring -> Prop) :
  P [] ->
  (forall c r, P r -> (forall d r', r = d :: r' -> P r') -> P (c :: r)) ->
  forall s, P s.
Proof.
  intros H0 HS s.
  enough (H : P s /\ (forall d r', s = d :: r' -> P r')) by apply H.
  induction s as [|c s [IH1 IH2]].
  - split; [exact H0 | discriminate].
  - split; [apply HS; assumption|].
    intros d r' E. inversion E; subst. exact IH1.
Qed.

Lemma unescaped_spec c :
  unescaped c =
  ((97 <=? c) && (c <=? 122)) || ((65 <=? c) && (c <=? 90))
  || ((48 <=? c) && (c <=? 57))
  || ((45 =? c) || ((95 =? c) || ((46 =? c) || ((33 =? c) || ((126 =? c)
  || ((42 =? c) || ((39 =? c) || ((40 =? c) || ((41 =? c) || false))))))))).
Proof. reflexivity. Qed.

Lemma unescaped_ascii c : unescaped c = true -> 33 <= c <= 126 /\ c <> 37.
Proof. rewrite unescaped_spec. lia. Qed.

Lemma unescaped_fieldChar c : unescaped c = true -> fieldChar c = true.
Proof. rewrite unescaped_spec. unfold fieldChar. lia. Qed.

Lemma hexValue_hexDigit n : n < 16 -> hexValue (hexDigit n) = Some n.
Proof.
  intros H. unfold hexValue, hexDigit.
  destruct (n <? 10) eqn:D; repeat case_if; try (f_equal; lia); lia.
Qed.

Lemma hexDigit_fieldChar n : fieldChar (hexDigit n) = true.
Proof. unfold fieldChar, hexDigit. case_if; lia. Qed.

Lemma percent_fieldChar b : Forall (fun c => fieldChar c = true) (percent b).
Proof.
  unfold percent. repeat constructor; apply hexDigit_fieldChar.
Qed.

Lemma escapeCodePoint_fieldChar cp :
  Forall (fun c => fieldChar c = true) (escapeCodePoint cp).
Proof.
  unfold escapeCodePoint. induction (utf8 cp) as [|b l IH]; cbn [flat_map].
  - constructor.
  - apply Forall_app. split; [apply percent_fieldChar | exact IH].
Qed.

Lemma unescapeOctets_percent b r :
  b < 256 ->
  unescapeOctets (percent b ++ r) =
  (t <- unescapeOctets r ;; Normal (Octet b :: t)).
Proof.
  intros H. unfold percent. cbn [app unescapeOctets].
  change (37 =? 37) with true. cbv iota.
  rewrite !hexValue_hexDigit by lia.
  replace (16 * (b / 16) + b mod 16) with b by lia. reflexivity.
Qed.

Lemma utf8_octets cp :
  cp <= 1114111 -> Forall (fun b => b < 256) (utf8 cp).
Proof.
  intros H. unfold utf8. repeat case_if; repeat constructor; lia.
Qed.

Lemma unescapeOctets_octets l : forall r,
  Forall (fun b => b < 256) l ->
  unescapeOctets (flat_map percent l ++ r) =
  (t <- unescapeOctets r ;; Normal (map Octet l ++ t)).
Proof.
  induction l as [|b l IH]; intros r H; cbn [flat_map map app].
  - destruct (unescapeOctets r); reflexivity.
  - inversion H; subst. rewrite <- app_assoc.
    rewrite unescapeOctets_percent by assumption.
    rewrite IH by assumption. destruct (unescapeOctets r); reflexivity.
Qed.

Lemma decodeOctets_utf8 cp t :
  isScalar cp = true ->
  decodeOctets (map Octet (utf8 cp) ++ t) =
  (d <- decodeOctets t ;; Normal (utf16 cp ++ d)).
Proof.
  intros H. unfold isScalar in H. unfold utf8.
  destruct (cp <? 128) eqn:E1; [|destruct (cp <? 2048) eqn:E2;
    [|destruct (cp <? 65536) eqn:E3]];
    cbn [map app decodeOctets].
  - rewrite E1. unfold utf16.
    replace (cp <? 65536) with true by lia. reflexivity.
  - replace (192 + cp / 64 <? 128) with false by lia.
    replace ((192 <=? 192 + cp / 64) && (192 + cp / 64 <=? 223))
      with true by lia.
    replace ((192 + cp / 64 - 192) * 64 + (128 + cp mod 64 - 128))
      with cp by lia.
    replace (isContinuation (128 + cp mod 64) && (128 <=? cp))
      with true by (unfold isContinuation; lia).
    reflexivity.
  - replace (224 + cp / 4096 <? 128) with false by lia.
    replace ((192 <=? 224 + cp / 4096) && (224 + cp / 4096 <=? 223))
      with false by lia.
    replace ((224 <=? 224 + cp / 4096) && (224 + cp / 4096 <=? 239))
      with true by lia.
    replace ((224 + cp / 4096 - 224) * 4096
             + (128 + (cp / 64) mod 64 - 128) * 64
             + (128 + cp mod 64 - 128)) with cp by lia.
    replace (isContinuation (128 + (cp / 64) mod 64)
             && isContinuation (128 + cp mod 64) && (2048 <=? cp)
             && negb ((55296 <=? cp) && (cp <=? 57343)))
      with true by (unfold isContinuation; lia).
    reflexivity.
  - replace (240 + cp / 262144 <? 128) with false by lia.
    replace ((192 <=? 240 + cp / 262144) && (240 + cp / 262144 <=? 223))
      with false by lia.
    replace ((224 <=? 240 + cp / 262144) && (240 + cp / 262144 <=? 239))
      with false by lia.
    replace ((240 <=? 240 + cp / 262144) && (240 + cp / 262144 <=? 247))
      with true by lia.
    replace ((240 + cp / 262144 - 240) * 262144
             + (128 + (cp / 4096) mod 64 - 128) * 4096
             + (128 + (cp / 64) mod 64 - 128) * 64
             + (128 + cp mod 64 - 128)) with cp by lia.
    replace (isContinuation (128 + (cp / 4096) mod 64)
             && isContinuation (128 + (cp / 64) mod 64)
             && isContinuation (128 + cp mod 64)
             && (65536 <=? cp) && (cp <=? 1114111))
      with true by (unfold isContinuation; lia).
    reflexivity.
Qed.

Lemma decode_escapeCodePoint cp e t d :
  isScalar cp = true ->
  unescapeOctets e = Normal t -> decodeOctets t = Normal d ->
  exists t', unescapeOctets (escapeCodePoint cp ++ e) = Normal t' /\
             decodeOctets t' = Normal (utf16 cp ++ d).
Proof.
  intros H Ht Hd. exists (map Octet (utf8 cp) ++ t). split.
  - unfold escapeCodePoint. rewrite unescapeOctets_octets.
    + rewrite Ht. reflexivity.
    + apply utf8_octets. unfold isScalar in H. lia.
  - rewrite decodeOctets_utf8 by assumption. rewrite Hd. reflexivity.
Qed.

Lemma pairCodePoint_scalar hi lo :
  isHighSurrogate hi = true -> isLowSurrogate lo = true ->
  isScalar (pairCodePoint hi lo) = true /\
  utf16 (pairCodePoint hi lo) = [hi; lo].
Proof.
  unfold isHighSurrogate, isLowSurrogate, isScalar, pairCodePoint, utf16.
  intros Hh Hl. split; [lia|].
  replace ((hi - 55296) * 1024 + (lo - 56320) + 65536 <? 65536)
    with false by lia.
  f_equal; [|f_equal]; lia.
Qed.

(** Decoding inverts encoding, on every string the encoder accepts. *)
Lemma decode_encode : forall s e,
  validUnits s = true -> encodeURIComponent s = Normal e ->
  exists t, unescapeOctets e = Normal t /\ decodeOctets t = Normal s.
Proof.
  induction s as [|c r IH1 IH2] using jsstring_pair_ind; intros e Hv He.
  - inversion He; subst. exists []. split; reflexivity.
  - cbn [encodeURIComponent] in He. cbn [validUnits forallb] in Hv.
    apply andb_true_iff in Hv. destruct Hv as [Hc Hv].
    destruct (unescaped c) eqn:U.
    + destruct (encodeURIComponent r) as [e'|] eqn:R; [|discriminate].
      inversion He; subst e.
      destruct (IH1 _ Hv eq_refl) as (t & Ht & Hd).
      exists (Unit c :: t). cbn [unescapeOctets decodeOctets].
      replace (c =? 37) with false by (apply unescaped_ascii in U; lia).
      rewrite Ht. cbn. rewrite Hd. split; reflexivity.
    + destruct (isLowSurrogate c) eqn:L; [discriminate|].
      destruct (isHighSurrogate c) eqn:Hi.
      * destruct r as [|d r']; [discriminate|].
        destruct (isLowSurrogate d) eqn:Ld; [|discriminate].
        destruct (encodeURIComponent r') as [e'|] eqn:R; [|discriminate].
        inversion He; subst e.
        cbn [validUnits forallb] in Hv.
        apply andb_true_iff in Hv. destruct Hv as [_ Hv].
        destruct (IH2 _ _ eq_refl _ Hv R) as (t & Ht & Hd).
        destruct (pairCodePoint_scalar _ _ Hi Ld) as [Hs Hu].
        destruct (decode_escapeCodePoint _ _ _ _ Hs Ht Hd) as (t' & Ht' & Hd').
        exists t'. split; [exact Ht'|]. rewrite Hd', Hu. reflexivity.
      * destruct (encodeURIComponent r) as [e'|] eqn:R; [|discriminate].
        inversion He; subst e.
        destruct (IH1 _ Hv eq_refl) as (t & Ht & Hd).
        assert (Hs : isScalar c = true).
        { unfold isScalar, isLowSurrogate, isHighSurrogate in *. lia. }
        destruct (decode_escapeCodePoint _ _ _ _ Hs Ht Hd) as (t' & Ht' & Hd').
        exists t'. split; [exact Ht'|]. rewrite Hd'. unfold utf16.
        rewrite Hc. reflexivity.
Qed.

Lemma decodeURIComponent_encode s e :
  validUnits s = true -> encodeURIComponent s = Normal e ->
  decodeURIComponent e = Normal s.
Proof.
  intros Hv He. destruct (decode_encode _ _ Hv He) as (t & Ht & Hd).
  unfold decodeURIComponent. rewrite Ht. exact Hd.
Qed.

(** The encoder accepts exactly the well-formed strings. *)
Lemma encodeURIComponent_wellFormed : forall s,
  isWellFormed s = true <-> exists e, encodeURIComponent s = Normal e.
Proof.
  induction s as [|c r IH1 IH2] using jsstring_pair_ind.
  - split; [exists []|]; reflexivity.
  - cbn [encodeURIComponent isWellFormed].
    destruct (unescaped c) eqn:U.
    + apply unescaped_ascii in U.
      replace (isHighSurrogate c) with false
        by (unfold isHighSurrogate; lia).
      replace (isLowSurrogate c) with false by (unfold isLowSurrogate; lia).
      rewrite IH1. split; intros (e & He).
      * rewrite He. eexists. reflexivity.
      * destruct (encodeURIComponent r); [eexists; reflexivity | discriminate].
    + destruct (isLowSurrogate c) eqn:L.
      * replace (isHighSurrogate c) with false
          by (unfold isHighSurrogate, isLowSurrogate in *; lia).
        split; [discriminate | intros (e & He); discriminate].
      * destruct (isHighSurrogate c) eqn:Hi.
        -- destruct r as [|d r']; [split; [|intros (e & He)]; discriminate|].
           destruct (isLowSurrogate d) eqn:Ld; simpl;
             [|split; [|intros (e & He)]; discriminate].
           rewrite (IH2 d r' eq_refl). split; intros (e & He).
           ++ rewrite He. eexists. reflexivity.
           ++ destruct (encodeURIComponent r');
                [eexists; reflexivity | discriminate].
        -- rewrite IH1. split; intros (e & He).
           ++ rewrite He. eexists. reflexivity.
           ++ destruct (encodeURIComponent r);
                [eexists; reflexivity | discriminate].
Qed.

Lemma encodeURIComponent_fieldChars : forall s e,
  encodeURIComponent s = Normal e -> Forall (fun c => fieldChar c = true) e.
Proof.
  induction s as [|c r IH1 IH2] using jsstring_pair_ind; intros e He.
  - inversion He. constructor.
  - cbn [encodeURIComponent] in He.
    destruct (unescaped c) eqn:U.
    + destruct (encodeURIComponent r) as [e'|] eqn:R; [|discriminate].
      inversion He; subst e. constructor;
        [apply unescaped_fieldChar; exact U | apply IH1; reflexivity].
    + destruct (isLowSurrogate c); [discriminate|].
      destruct (isHighSurrogate c).
      * destruct r as [|d r']; [discriminate|].
        destruct (isLowSurrogate d); [|discriminate].
        destruct (encodeURIComponent r') as [e'|] eqn:R; [|discriminate].
        inversion He; subst e. apply Forall_app. split;
          [apply escapeCodePoint_fieldChar | apply (IH2 d r' eq_refl); exact R].
      * destruct (encodeURIComponent r) as [e'|] eqn:R; [|discriminate].
        inversion He; subst e. apply Forall_app. split;
          [apply escapeCodePoint_fieldChar | apply IH1; reflexivity].
Qed.

(** ** Reading back the parameter of a viewer URL *)

Lemma takeWhile_all f e :
  Forall (fun c => f c = true) e -> takeWhile f e = e.
Proof.
  intros H. induction H as [|c e Hc _ IH]; simpl; [reflexivity|].
  rewrite Hc, IH. reflexivity.
Qed.

Lemma splitOn_single c e :
  Forall (fun x => (x =? c) = false) e -> splitOn c e = [e].
Proof.
  intros H. induction H as [|x e Hx _ IH]; simpl; [reflexivity|].
  rewrite Hx, IH. reflexivity.
Qed.

Lemma fieldChars_query e :
  Forall (fun c => fieldChar c = true) e ->
  takeWhile (fun c => negb (c =? 35)) e = e /\ splitOn 38 e = [e].
Proof.
  intros H. split.
  - apply takeWhile_all. eapply Forall_impl; [|exact H].
    unfold fieldChar. intros c Hc. lia.
  - apply splitOn_single. eapply Forall_impl; [|exact H].
    unfold fieldChar. intros c Hc. lia.
Qed.

Lemma queryParam_docsViewer e :
  Forall (fun c => fieldChar c = true) e ->
  queryParam "url"
    (lit "https://docs.google.com/gview?embedded=true&url=" ++ e) = Some e.
Proof.
  intros H. destruct (fieldChars_query e H) as [Ht Hs].
  unfold queryParam.
  change (afterChar 63
            (lit "https://docs.google.com/gview?embedded=true&url=" ++ e))
    with (Some (lit "embedded=true&url=" ++ e)).
  cbv iota.
  change (takeWhile (fun c => negb (c =? 35)) (lit "embedded=true&url=" ++ e))
    with (lit "embedded=true&url="
          ++ takeWhile (fun c => negb (c =? 35)) e).
  rewrite Ht.
  change (lit "embedded=true&url=" ++ e)
    with (lit "embedded=true" ++ 38 :: lit "url=" ++ e).
  cbn [lit list_ascii_of_string map app splitOn].
  cbn. rewrite Hs. reflexivity.
Qed.

Lemma queryParam_officeViewer e :
  Forall (fun c => fieldChar c = true) e ->
  queryParam "src"
    (lit "https://view.officeapps.live.com/op/embed.aspx?src=" ++ e) = Some e
  /\ queryParam "url"
    (lit "https://view.officeapps.live.com/op/embed.aspx?src=" ++ e) = None.
Proof.
  intros H. destruct (fieldChars_query e H) as [Ht Hs].
  unfold queryParam.
  change (afterChar 63
            (lit "https://view.officeapps.live.com/op/embed.aspx?src=" ++ e))
    with (Some (lit "src=" ++ e)).
  cbv iota.
  change (takeWhile (fun c => negb (c =? 35)) (lit "src=" ++ e))
    with (lit "src=" ++ takeWhile (fun c => negb (c =? 35)) e).
  rewrite Ht. cbn. rewrite Hs. split; reflexivity.
Qed.

(** ** The resolver, case by case *)

Lemma asciiOnly_app a b : asciiOnly (a ++ b) = asciiOnly a && asciiOnly b.
Proof. apply forallb_app. Qed.

Lemma idChars_ascii id :
  Forall (fun c => idChar c = true) id -> asciiOnly id = true.
Proof.
  intros H. induction H as [|c id Hc _ IH]; simpl; [reflexivity|].
  rewrite IH, andb_true_r. unfold idChar in Hc. lia.
Qed.

Lemma asciiOnly_wellFormed s : asciiOnly s = true -> isWellFormed s = true.
Proof.
  induction s as [|c s IH]; simpl; [reflexivity|]. intros H.
  apply andb_true_iff in H. destruct H as [Hc Hs].
  replace (isHighSurrogate c) with false by (unfold isHighSurrogate; lia).
  replace (isLowSurrogate c) with false by (unfold isLowSurrogate; lia).
  exact (IH Hs).
Qed.

Lemma encodeURIComponent_ascii s :
  asciiOnly s = true -> exists e, encodeURIComponent s = Normal e.
Proof.
  intros H. apply encodeURIComponent_wellFormed, asciiOnly_wellFormed, H.
Qed.

Lemma templates_ascii id :
  asciiOnly id = true ->
  asciiOnly (buildDriveDirectDownload id) = true /\
  asciiOnly (buildSlidesExportPptx id) = true /\
  asciiOnly (slidesExportPdf id) = true /\
  asciiOnly (documentExportPdf id) = true.
Proof.
  intros H.
  unfold buildDriveDirectDownload, buildSlidesExportPptx, slidesExportPdf,
    documentExportPdf.
  rewrite !asciiOnly_app, H. repeat split; reflexivity.
Qed.

Lemma firstMatch_regexMatch ps s id :
  firstMatch ps s = Some id -> exists p, In p ps /\ regexMatch p s = Some id.
Proof.
  induction ps as [|p ps IH]; simpl; [discriminate|].
  destruct (regexMatch p s) as [g|] eqn:R.
  - rewrite (regexMatch_truthy _ _ _ R). intros H; inversion H; subst g.
    exists p. split; [left; reflexivity | exact R].
  - intros H. destruct (IH H) as (q & Hq & Hr).
    exists q. split; [right; exact Hq | exact Hr].
Qed.

Lemma extractGoogleFileId_id input id :
  extractGoogleFileId input = Some id ->
  truthy id = true /\ asciiOnly id = true.
Proof.
  unfold extractGoogleFileId, extractWith. intros H.
  destruct (negb (truthy (trim input))); [discriminate|].
  destruct (firstMatch_regexMatch _ _ _ H) as (p & _ & R). split.
  - exact (regexMatch_truthy _ _ _ R).
  - apply idChars_ascii. exact (regexMatch_idChars _ _ _ R).
Qed.

Lemma google_nonempty input :
  isProbablyGoogleLink input = true -> truthy (trim input) = true.
Proof.
  unfold isProbablyGoogleLink. destruct (trim input); [|reflexivity].
  intros H. vm_compute in H. discriminate.
Qed.

(** The four ways through [convertLink]. *)
Lemma convertLink_cases input type :
  (truthy (trim input) = false /\
   convertLink input type = Normal (errorResult emptyInputError)) \/
  (truthy (trim input) = true /\ isProbablyGoogleLink input = true /\
   extractGoogleFileId input = None /\
   convertLink input type = Normal (errorResult malformedGoogleError)) \/
  (exists id,
     truthy (trim input) = true /\ isProbablyGoogleLink input = true /\
     extractGoogleFileId input = Some id /\
     convertLink input type = convertGoogle (trim input) id type) \/
  (truthy (trim input) = true /\ isProbablyGoogleLink input = false /\
   convertLink input type = convertDirect (trim input) type).
Proof.
  unfold convertLink. rewrite classify_trim.
  destruct (truthy (trim input)) eqn:T; simpl; [|left; split; reflexivity].
  right. destruct (isProbablyGoogleLink input) eqn:G.
  - destruct (extractGoogleFileId input) as [id|] eqn:X.
    + right. left. exists id.
      destruct (extractGoogleFileId_id _ _ X) as [Hid _]. rewrite Hid.
      repeat split.
    + left. repeat split.
  - right. right. repeat split.
Qed.

Lemma convertLink_google input id type :
  isProbablyGoogleLink input = true -> extractGoogleFileId input = Some id ->
  convertLink input type = convertGoogle (trim input) id type.
Proof.
  intros G X.
  destruct (convertLink_cases input type)
    as [[T _]|[(_ & _ & X' & _)|[(id' & _ & _ & X' & H)|(_ & G' & _)]]].
  - rewrite (google_nonempty _ G) in T. discriminate.
  - rewrite X in X'. discriminate.
  - rewrite X in X'. inversion X'; subst id'. exact H.
  - rewrite G in G'. discriminate.
Qed.

Lemma convertLink_direct input type :
  truthy (trim input) = true -> isProbablyGoogleLink input = false ->
  convertLink input type = convertDirect (trim input) type.
Proof.
  intros T G.
  destruct (convertLink_cases input type)
    as [[T' _]|[(_ & G' & _)|[(id' & _ & G' & _)|(_ & _ & H)]]].
  - rewrite T in T'. discriminate.
  - rewrite G in G'. discriminate.
  - rewrite G in G'. discriminate.
  - exact H.
Qed.

(** White space at either end is not part of a surrogate pair. *)
Lemma space_not_surrogate c :
  isWhiteSpace c = true ->
  isHighSurrogate c = false /\ isLowSurrogate c = false.
Proof. unfold isWhiteSpace, isHighSurrogate, isLowSurrogate. lia. Qed.

Lemma surrogate_not_space c :
  isHighSurrogate c || isLowSurrogate c = true -> isWhiteSpace c = false.
Proof. unfold isWhiteSpace, isHighSurrogate, isLowSurrogate. lia. Qed.

Lemma isWellFormed_trimStart s :
  isWellFormed s = true -> isWellFormed (trimStart s) = true.
Proof.
  induction s as [|c s IH]; [reflexivity|].
  cbn [trimStart]. destruct (isWhiteSpace c) eqn:W; [|exact (fun H => H)].
  destruct (space_not_surrogate _ W) as [Hh Hl].
  cbn [isWellFormed]. rewrite Hh, Hl. exact IH.
Qed.

Lemma isWellFormed_trimEnd : forall s,
  isWellFormed s = true -> isWellFormed (trimEnd s) = true.
Proof.
  induction s as [|c r IH1 IH2] using jsstring_pair_ind; [reflexivity|].
  cbn [isWellFormed]. destruct (isHighSurrogate c) eqn:Hh.
  - destruct r as [|d r']; [discriminate|]. intros H.
    apply andb_true_iff in H. destruct H as [Hd Hr].
    rewrite trimEnd_cons_nonspace
      by (apply surrogate_not_space; rewrite Hh; reflexivity).
    rewrite trimEnd_cons_nonspace
      by (apply surrogate_not_space; rewrite Hd; apply orb_true_r).
    cbn [isWellFormed]. rewrite Hh, Hd. exact (IH2 d r' eq_refl Hr).
  - destruct (isLowSurrogate c) eqn:Hl; [discriminate|]. intros H.
    cbn [trimEnd]. specialize (IH1 H).
    destruct (trimEnd r) as [|d t].
    + destruct (isWhiteSpace c); [reflexivity|].
      cbn [isWellFormed]. rewrite Hh, Hl. reflexivity.
    + cbn [isWellFormed] in *. rewrite Hh, Hl. exact IH1.
Qed.

Lemma isWellFormed_trim s :
  isWellFormed s = true -> isWellFormed (trim s) = true.
Proof.
  intros H. apply isWellFormed_trimEnd, isWellFormed_trimStart, H.
Qed.

Lemma convertGoogle_returns raw id type :
  asciiOnly id = true -> exists r, convertGoogle raw id type = Normal r.
Proof.
  intros H. destruct (templates_ascii id H) as (Hd & _ & Hs & Hx).
  destruct type; try (eexists; reflexivity).
  cbn [convertGoogle]. unfold buildDocsViewer.
  set (target := if includes _ _ then _ else _).
  assert (A : asciiOnly target = true).
  { subst target. repeat case_if; assumption. }
  destruct (encodeURIComponent_ascii _ A) as (e & ->).
  eexists. reflexivity.
Qed.

(** [convertLink] returns on every well-formed input. *)
Lemma convertLink_returns input type :
  isWellFormed input = true -> exists r, convertLink input type = Normal r.
Proof.
  intros W.
  destruct (convertLink_cases input type)
    as [[_ H]|[(_ & _ & _ & H)|[(id & _ & _ & X & H)|(_ & _ & H)]]];
    rewrite H; try (eexists; reflexivity).
  - apply convertGoogle_returns.
    exact (proj2 (extractGoogleFileId_id _ _ X)).
  - apply isWellFormed_trim in W.
    apply encodeURIComponent_wellFormed in W. destruct W as (e & He).
    destruct type; cbn [convertDirect];
      unfold buildMicrosoftOfficeViewer, buildDocsViewer;
      try rewrite He; eexists; reflexivity.
Qed.

(** * The claims *)

(** C1, as stated, fails: the three rules are tried in order and the
    first that applies decides.  A Document link whose text also contains
    [docs.google.com/presentation] gets the Slides pdf export, not the
    Document pdf export; a Sheets link whose text also contains
    [docs.google.com/document] gets the Document pdf export, not the
    direct download. *)
Lemma C1_counterexample :
  (isProbablyGoogleLink sampleDocumentWithSlidesMarker = true /\
   extractGoogleFileId sampleDocumentWithSlidesMarker = Some (lit "DOC1") /\
   includes (lit "docs.google.com/document")
     (toLowerCase sampleDocumentWithSlidesMarker) = true /\
   (exists r,
      convertLink sampleDocumentWithSlidesMarker pdf = Normal r /\
      exportUrl r =
        Some (lit "https://docs.google.com/presentation/d/DOC1/export/pdf")) /\
   ~ (exists r,
        convertLink sampleDocumentWithSlidesMarker pdf = Normal r /\
        exportUrl r =
          Some (lit "https://docs.google.com/document/d/DOC1/export?format=pdf")))
  /\
  (isProbablyGoogleLink sampleSheetsWithDocumentMarker = true /\
   extractGoogleFileId sampleSheetsWithDocumentMarker = Some (lit "SHEET1") /\
   includes (lit "docs.google.com/spreadsheets")
     (toLowerCase sampleSheetsWithDocumentMarker) = true /\
   (exists r,
      convertLink sampleSheetsWithDocumentMarker pdf = Normal r /\
      exportUrl r =
        Some (lit "https://docs.google.com/document/d/SHEET1/export?format=pdf")) /\
   ~ (exists r,
        convertLink sampleSheetsWithDocumentMarker pdf = Normal r /\
        exportUrl r =
          Some (lit "https://drive.google.com/uc?export=download&id=SHEET1"))).
Proof.
  split; (split; [vm_compute; reflexivity|]);
    (split; [vm_compute; reflexivity|]);
    (split; [vm_compute; reflexivity|]);
    (split; [eexists; split; vm_compute; reflexivity|]);
    intros (r & H & E); vm_compute in H; inversion H; subst r;
    vm_compute in E; discriminate.
Qed.

(** C1, amended.  A Google-hosted input with identifier [id], resolved for
    pdf.  The export URL is
    [https://docs.google.com/presentation/d/<id>/export/pdf] when the
    lower-cased trimmed input contains [docs.google.com/presentation];
    otherwise [https://docs.google.com/document/d/<id>/export?format=pdf]
    when it contains [docs.google.com/document]; otherwise the direct
    download [https://drive.google.com/uc?export=download&id=<id>], in
    particular when it contains [docs.google.com/spreadsheets].  The
    preview URL is the document viewer applied to that final export URL:
    [https://docs.google.com/gview?embedded=true&url=] followed by the
    percent-encoded export URL; the viewer does not throw here. *)
Theorem C1_pdf_export_then_preview (input id : jsstring) :
  isProbablyGoogleLink input = true ->
  extractGoogleFileId input = Some id ->
  let lower := toLowerCase (trim input) in
  let target :=
    if includes (lit "docs.google.com/presentation") lower then
      lit "https://docs.google.com/presentation/d/" ++ id
      ++ lit "/export/pdf"
    else if includes (lit "docs.google.com/document") lower then
      lit "https://docs.google.com/document/d/" ++ id
      ++ lit "/export?format=pdf"
    else if includes (lit "docs.google.com/spreadsheets") lower then
      lit "https://drive.google.com/uc?export=download&id=" ++ id
    else lit "https://drive.google.com/uc?export=download&id=" ++ id in
  exists r p e,
    convertLink input pdf = Normal r /\
    exportUrl r = Some target /\
    buildDocsViewer target = Normal p /\
    encodeURIComponent target = Normal e /\
    p = lit "https://docs.google.com/gview?embedded=true&url=" ++ e /\
    previewUrl r = Some p /\
    fileId r = Some id /\ error r = None.
Proof.
  intros G X lower target.
  rewrite (convertLink_google _ _ _ G X).
  destruct (extractGoogleFileId_id _ _ X) as [_ Hid].
  destruct (templates_ascii id Hid) as (Hd & _ & Hs & Hx).
  assert (A : asciiOnly target = true).
  { subst target. repeat case_if; assumption. }
  destruct (encodeURIComponent_ascii _ A) as (e & He).
  cbn [convertGoogle].
  set (t := if includes _ _ then _ else _).
  assert (Et : t = target) by reflexivity.
  clearbody t. subst t.
  unfold buildDocsViewer. rewrite He. cbn [bind].
  eexists. eexists. exists e. repeat split.
Qed.

Lemma C1_witness :
  isProbablyGoogleLink sampleDocumentWithSlidesMarker = true /\
  extractGoogleFileId sampleDocumentWithSlidesMarker = Some (lit "DOC1") /\
  let lower := toLowerCase (trim sampleDocumentWithSlidesMarker) in
  let target :=
    if includes (lit "docs.google.com/presentation") lower then
      lit "https://docs.google.com/presentation/d/" ++ lit "DOC1"
      ++ lit "/export/pdf"
    else if includes (lit "docs.google.com/document") lower then
      lit "https://docs.google.com/document/d/" ++ lit "DOC1"
      ++ lit "/export?format=pdf"
    else if includes (lit "docs.google.com/spreadsheets") lower then
      lit "https://drive.google.com/uc?export=download&id=" ++ lit "DOC1"
    else lit "https://drive.google.com/uc?export=download&id=" ++ lit "DOC1" in
  exists r p e,
    convertLink sampleDocumentWithSlidesMarker pdf = Normal r /\
    exportUrl r = Some target /\
    buildDocsViewer target = Normal p /\
    encodeURIComponent target = Normal e /\
    p = lit "https://docs.google.com/gview?embedded=true&url=" ++ e /\
    previewUrl r = Some p /\
    fileId r = Some (lit "DOC1") /\ error r = None.
Proof.
  split; [vm_compute; reflexivity|].
  split; [vm_compute; reflexivity|].
  apply (C1_pdf_export_then_preview sampleDocumentWithSlidesMarker
           (lit "DOC1")); vm_compute; reflexivity.
Defined.

(** C3.  A Google-hosted input with identifier [id], resolved for ppt:
    the export URL is the Slides pptx export of [id], the preview URL and
    the embed URL are both the Slides embed URL of [id], and without the
    caller's toggle the page shows exactly this result. *)
Theorem C3_google_ppt (input id : jsstring) :
  isProbablyGoogleLink input = true ->
  extractGoogleFileId input = Some id ->
  exists r,
    convertLink input ppt = Normal r /\
    exportUrl r =
      Some (lit "https://docs.google.com/presentation/d/" ++ id
            ++ lit "/export/pptx") /\
    previewUrl r =
      Some (lit "https://docs.google.com/presentation/d/" ++ id
            ++ lit "/embed?start=false&loop=false&delayms=3000") /\
    embedUrl r = previewUrl r /\
    fileId r = Some id /\ error r = None /\
    pageResult input ppt false = Normal r.
Proof.
  intros G X. unfold pageResult.
  rewrite (convertLink_google _ _ _ G X). cbn [convertGoogle bind].
  eexists. repeat split.
Qed.

Lemma C3_witness :
  isProbablyGoogleLink sampleSlidesLink = true /\
  extractGoogleFileId sampleSlidesLink = Some sampleId /\
  exists r,
    convertLink sampleSlidesLink ppt = Normal r /\
    exportUrl r =
      Some (lit "https://docs.google.com/presentation/d/" ++ sampleId
            ++ lit "/export/pptx") /\
    previewUrl r =
      Some (lit "https://docs.google.com/presentation/d/" ++ sampleId
            ++ lit "/embed?start=false&loop=false&delayms=3000") /\
    embedUrl r = previewUrl r /\
    fileId r = Some sampleId /\ error r = None /\
    pageResult sampleSlidesLink ppt false = Normal r.
Proof.
  split; [vm_compute; reflexivity|].
  split; [vm_compute; reflexivity|].
  apply (C3_google_ppt sampleSlidesLink sampleId); vm_compute; reflexivity.
Defined.

(** C6.  Whatever [convertLink] returns satisfies the two invariants of
    the result record: when [error] is set, [exportUrl] and [previewUrl]
    are absent; when the input is classified Google-hosted and [error] is
    absent, [fileId] holds the extracted, non-empty identifier. *)
Theorem C6_result_invariants (input : jsstring) (type : FileType)
    (r : ConvertResult) :
  convertLink input type = Normal r ->
  (error r <> None -> exportUrl r = None /\ previewUrl r = None) /\
  (isProbablyGoogleLink input = true -> error r = None ->
   exists id, fileId r = Some id /\ truthy id = true /\
              extractGoogleFileId input = Some id).
Proof.
  intros H.
  destruct (convertLink_cases input type)
    as [[_ E]|[(_ & _ & _ & E)|[(id & _ & _ & X & E)|(_ & G & E)]]];
    rewrite E in H.
  - inversion H; subst r. split; [split; reflexivity | discriminate].
  - inversion H; subst r. split; [split; reflexivity | discriminate].
  - destruct (extractGoogleFileId_id _ _ X) as [Hid _].
    assert (F : fileId r = Some id /\ error r = None).
    { destruct type; cbn [convertGoogle] in H;
        try (inversion H; subst r; split; reflexivity).
      destruct (buildDocsViewer _); [|discriminate].
      inversion H; subst r; split; reflexivity. }
    destruct F as [F1 F2]. split.
    + intros N. rewrite F2 in N. contradiction.
    + intros _ _. exists id. repeat split; assumption.
  - assert (F : error r = None).
    { destruct type; cbn [convertDirect] in H;
        try (inversion H; subst r; reflexivity).
      - destruct (buildMicrosoftOfficeViewer _); [|discriminate].
        inversion H; subst r; reflexivity.
      - destruct (buildDocsViewer _); [|discriminate].
        inversion H; subst r; reflexivity. }
    split.
    + intros N. rewrite F in N. contradiction.
    + intros G'. rewrite G in G'. discriminate.
Qed.

Lemma C6_witness :
  exists r,
    convertLink sampleSlidesLink pdf = Normal r /\
    (error r <> None -> exportUrl r = None /\ previewUrl r = None) /\
    (isProbablyGoogleLink sampleSlidesLink = true -> error r = None ->
     exists id, fileId r = Some id /\ truthy id = true /\
                extractGoogleFileId sampleSlidesLink = Some id).
Proof.
  eexists. split; [vm_compute; reflexivity|].
  apply (C6_result_invariants sampleSlidesLink pdf).
  vm_compute; reflexivity.
Defined.



(** C10.  The classification ignores case and the extraction does not:
    the link [https://DOCS.GOOGLE.COM/PRESENTATION/D/abc123/edit] is
    classified Google-hosted, no identifier is extracted from it, and
    [convertLink] returns the malformed-Google-link error for every media
    type. *)
Theorem C10_uppercase_path_is_malformed :
  isProbablyGoogleLink sampleUpperLink = true /\
  extractGoogleFileId sampleUpperLink = None /\
  extractGoogleFileId (toLowerCase sampleUpperLink) = Some (lit "abc123") /\
  forall type,
    convertLink sampleUpperLink type =
    Normal (errorResult malformedGoogleError).
Proof.
  split; [vm_compute; reflexivity|].
  split; [vm_compute; reflexivity|].
  split; [vm_compute; reflexivity|].
  intros type. destruct type; vm_compute; reflexivity.
Qed.

(** C4, as stated, fails: a direct link pasted with a space before it is
    not returned as it is, the result holds the trimmed link; and the
    empty input, which contains neither host name, gets the empty-input
    error and no URL. *)
Lemma C4_counterexample :
  (isProbablyGoogleLink samplePaddedLink = false /\
   convertLink samplePaddedLink image =
     Normal (mkResult None (Some sampleDirectLink) None
               (Some sampleDirectLink) (Some [notGoogleNote]) None) /\
   ~ (exists r, convertLink samplePaddedLink image = Normal r /\
                exportUrl r = Some samplePaddedLink /\
                previewUrl r = Some samplePaddedLink /\ error r = None)) /\
  (isProbablyGoogleLink [] = false /\
   convertLink [] image = Normal (errorResult emptyInputError) /\
   ~ (exists r, convertLink [] image = Normal r /\
                exportUrl r = Some [] /\
                previewUrl r = Some [] /\ error r = None)).
Proof.
  split; (split; [vm_compute; reflexivity|]);
    (split; [vm_compute; reflexivity|]);
    intros (r & H & E & _); vm_compute in H; inversion H; subst r;
    vm_compute in E; discriminate.
Qed.

(** C4, amended.  For an input that is not classified Google-hosted and
    whose trimmed form is not empty, and for image, video and audio,
    [convertLink] returns the trimmed input as both [exportUrl] and
    [previewUrl], with no error, no identifier and no embed URL; the only
    note says that the link is used as it is. *)
Theorem C4_direct_media_passthrough (input : jsstring) (type : FileType) :
  truthy (trim input) = true ->
  isProbablyGoogleLink input = false ->
  type = image \/ type = video \/ type = audio ->
  convertLink input type =
    Normal (mkResult None (Some (trim input)) None (Some (trim input))
              (Some [notGoogleNote]) None).
Proof.
  intros T G Ht. rewrite (convertLink_direct _ _ T G).
  destruct Ht as [->|[->| ->]]; reflexivity.
Qed.

Lemma C4_witness :
  truthy (trim samplePaddedLink) = true /\
  isProbablyGoogleLink samplePaddedLink = false /\
  convertLink samplePaddedLink video =
    Normal (mkResult None (Some (trim samplePaddedLink)) None
              (Some (trim samplePaddedLink)) (Some [notGoogleNote]) None).
Proof.
  split; [vm_compute; reflexivity|].
  split; [vm_compute; reflexivity|].
  apply (C4_direct_media_passthrough samplePaddedLink video);
    [vm_compute; reflexivity | vm_compute; reflexivity |].
  right. left. reflexivity.
Defined.

(** The error field of a returned result, in every case. *)
Lemma convertLink_error_cases input type r :
  convertLink input type = Normal r ->
  (truthy (trim input) = false -> error r = Some emptyInputError) /\
  (isProbablyGoogleLink input = true -> extractGoogleFileId input = None ->
   error r = Some malformedGoogleError) /\
  (truthy (trim input) = true ->
   isProbablyGoogleLink input = false \/ extractGoogleFileId input <> None ->
   error r = None).
Proof.
  intros H.
  destruct (convertLink_cases input type)
    as [[T E]|[(T & G & X & E)|[(id & T & G & X & E)|(T & G & E)]]].
  - rewrite E in H. inversion H; subst r. split; [|split].
    + reflexivity.
    + intros G. rewrite (google_nonempty _ G) in T. discriminate.
    + intros T'. rewrite T in T'. discriminate.
  - rewrite E in H. inversion H; subst r. split; [|split].
    + intros T'. rewrite T in T'. discriminate.
    + reflexivity.
    + intros _ [G'|X']; [rewrite G in G'; discriminate | contradiction].
  - assert (F : error r = None).
    { rewrite E in H. destruct type; cbn [convertGoogle] in H;
        try (inversion H; subst r; reflexivity).
      destruct (buildDocsViewer _); [|discriminate].
      inversion H; subst r; reflexivity. }
    split; [|split].
    + intros T'. rewrite T in T'. discriminate.
    + intros _ X'. rewrite X in X'. discriminate.
    + intros _ _. exact F.
  - assert (F : error r = None).
    { rewrite E in H. destruct type; cbn [convertDirect] in H;
        try (inversion H; subst r; reflexivity).
      - destruct (buildMicrosoftOfficeViewer _); [|discriminate].
        inversion H; subst r; reflexivity.
      - destruct (buildDocsViewer _); [|discriminate].
        inversion H; subst r; reflexivity. }
    split; [|split].
    + intros T'. rewrite T in T'. discriminate.
    + intros G'. rewrite G in G'. discriminate.
    + intros _ _. exact F.
Qed.

(** [convertLink] throws only in the direct-URL branch, for ppt and pdf,
    on a trimmed input with an unpaired surrogate. *)
Lemma convertLink_throws_only input type e :
  convertLink input type = Throw e ->
  isProbablyGoogleLink input = false /\ (type = ppt \/ type = pdf) /\
  isWellFormed (trim input) = false /\ e = URIError.
Proof.
  intros H.
  destruct (convertLink_cases input type)
    as [[T E]|[(T & G & X & E)|[(id & T & G & X & E)|(T & G & E)]]];
    rewrite E in H; try discriminate.
  - destruct (convertGoogle_returns (trim input) id type
                (proj2 (extractGoogleFileId_id _ _ X))) as (r & Hr).
    rewrite Hr in H. discriminate.
  - split; [exact G|].
    assert (W : isWellFormed (trim input) = false).
    { destruct (isWellFormed (trim input)) eqn:W; [|reflexivity].
      apply encodeURIComponent_wellFormed in W. destruct W as (x & Hx).
      destruct type; cbn [convertDirect] in H;
        unfold buildMicrosoftOfficeViewer, buildDocsViewer in H;
        try rewrite Hx in H; discriminate. }
    destruct e. destruct type; try discriminate; auto.
Qed.

(** C5.  The code does not meet the claim: on the string made of one
    unpaired surrogate, which is not empty after trimming and is not
    classified Google-hosted, [convertLink] throws a URIError for ppt and
    for pdf (from [encodeURIComponent] in the two viewer templates)
    instead of returning a result. *)
Theorem C5_unpaired_surrogate_throws :
  truthy (trim loneSurrogate) = true /\
  isProbablyGoogleLink loneSurrogate = false /\
  convertLink loneSurrogate ppt = Throw URIError /\
  convertLink loneSurrogate pdf = Throw URIError.
Proof. repeat split; vm_compute; reflexivity. Qed.

(** C2.  The extractor tries the six patterns [/file/d/], [/presentation/d/],
    [/document/d/], [/spreadsheets/d/], [[?&]id=] and [/uc?id=] in this
    order: it returns [id] exactly when some pattern of the list finds [id]
    in the input (at the leftmost place where that pattern matches, the
    maximal run of identifier characters) and no earlier pattern matches
    anywhere in the input; it returns nothing exactly when no pattern
    matches.  On the sample Slides link the classification is Google-hosted
    with the identifier of the link. *)
Theorem C2_ordered_extraction :
  patterns = Spec.orderedPatterns /\
  (forall input id,
     extractGoogleFileId input = Some id <->
     Spec.extracts Spec.orderedPatterns input id) /\
  (forall input,
     extractGoogleFileId input = None <->
     Spec.extractsNothing Spec.orderedPatterns input) /\
  classify sampleSlidesLink = (true, Some sampleId).
Proof.
  split; [reflexivity|].
  split; [|split].
  - intros input id. unfold extractGoogleFileId.
    rewrite (extractWith_firstMatch _ _ patterns_spaceFree).
    apply firstMatch_extracts.
  - intros input. unfold extractGoogleFileId.
    rewrite (extractWith_firstMatch _ _ patterns_spaceFree).
    apply firstMatch_nothing.
  - vm_compute. reflexivity.
Qed.

(** C9.  Every string in which [/uc?id=] matches is a string in which
    [[?&]id=] matches, so the sixth pattern is never the first to match,
    and the extractor returns the same result without it. *)
Theorem C9_uc_pattern_redundant :
  patterns = patternsWithoutUc ++ [chars "/uc?id="] /\
  (forall s,
     Spec.occurs (chars "/uc?id=") s ->
     Spec.occurs (Cls (lit "?&") :: chars "id=") s) /\
  (forall s id,
     regexMatch (chars "/uc?id=") s = Some id ->
     exists id', regexMatch (Cls (lit "?&") :: chars "id=") s = Some id') /\
  (forall input,
     extractGoogleFileId input = extractWith patternsWithoutUc input).
Proof.
  split; [reflexivity|].
  split; [exact occurs_uc_id|].
  split.
  - intros s id H.
    destruct (regexMatch (Cls (lit "?&") :: chars "id=") s) as [x|] eqn:R;
      [exists x; reflexivity|].
    exfalso. apply (proj1 (regexMatch_None _ _) R).
    apply occurs_uc_id.
    exact (finds_occurs _ _ _ (regexMatch_finds _ _ _ H)).
  - intros input. unfold extractGoogleFileId, extractWith.
    destruct (negb (truthy (trim input))); [reflexivity|].
    change patterns with (patternsWithoutUc ++ [chars "/uc?id="]).
    apply firstMatch_redundant_last.
    exists (Cls (lit "?&") :: chars "id="). split.
    + simpl. auto 6.
    + apply occurs_uc_id.
Qed.

(** C8, as stated, fails twice: the office viewer URL carries the file URL
    in its [src=] parameter and has no [url=] parameter, and for a string
    with an unpaired surrogate neither viewer URL is produced. *)
Lemma C8_counterexample :
  (exists o,
     buildMicrosoftOfficeViewer sampleDirectLink = Normal o /\
     decodedParam "url" o = None /\
     decodedParam "src" o = Some (Normal sampleDirectLink)) /\
  buildDocsViewer loneSurrogate = Throw URIError /\
  buildMicrosoftOfficeViewer loneSurrogate = Throw URIError.
Proof.
  split; [|split; vm_compute; reflexivity].
  eexists. split; [vm_compute; reflexivity|].
  split; vm_compute; reflexivity.
Qed.

(** C8, amended.  For every well-formed string [u] (no unpaired
    surrogate), both viewer URLs are produced, and percent-decoding the
    [url=] parameter of the document viewer URL and the [src=] parameter
    of the office viewer URL gives back [u]. *)
Theorem C8_viewer_roundtrip (u : jsstring) :
  validUnits u = true ->
  isWellFormed u = true ->
  exists g o,
    buildDocsViewer u = Normal g /\
    buildMicrosoftOfficeViewer u = Normal o /\
    decodedParam "url" g = Some (Normal u) /\
    decodedParam "src" o = Some (Normal u).
Proof.
  intros V W. apply encodeURIComponent_wellFormed in W.
  destruct W as (e & He).
  pose proof (encodeURIComponent_fieldChars _ _ He) as F.
  unfold buildDocsViewer, buildMicrosoftOfficeViewer, decodedParam.
  rewrite He. cbn [bind]. eexists. eexists.
  split; [reflexivity|]. split; [reflexivity|].
  rewrite (queryParam_docsViewer _ F).
  rewrite (proj1 (queryParam_officeViewer _ F)).
  cbn [option_map]. rewrite (decodeURIComponent_encode _ _ V He).
  split; reflexivity.
Qed.

Lemma C8_witness :
  validUnits sampleUnicodeLink = true /\
  isWellFormed sampleUnicodeLink = true /\
  exists g o,
    buildDocsViewer sampleUnicodeLink = Normal g /\
    buildMicrosoftOfficeViewer sampleUnicodeLink = Normal o /\
    decodedParam "url" g = Some (Normal sampleUnicodeLink) /\
    decodedParam "src" o = Some (Normal sampleUnicodeLink).
Proof.
  split; [vm_compute; reflexivity|].
  split; [vm_compute; reflexivity|].
  apply (C8_viewer_roundtrip sampleUnicodeLink); vm_compute; reflexivity.
Defined.

(** * Further properties *)

(** ** Matching across a template *)

Lemma matchHere_cons a p c s :
  matchHere (a :: p) (c :: s) =
  if atomMatches a c then matchHere p s else None.
Proof. unfold matchHere. simpl. destruct (atomMatches a c); reflexivity. Qed.

Lemma atomMatches_id a c :
  atomMatches a c = true -> idChar c = true -> atomAcceptsId a = true.
Proof.
  destruct a as [x|cs]; simpl.
  - intros H. apply N.eqb_eq in H. subst. exact (fun I => I).
  - intros H I. apply existsb_exists in H. destruct H as (x & Hx & E).
    apply N.eqb_eq in E. subst. apply existsb_exists. exists c. split; assumption.
Qed.

Lemma idRun_Forall id : idRun id = true <-> Forall (fun c => idChar c = true) id.
Proof.
  unfold idRun. rewrite forallb_forall, Forall_forall. reflexivity.
Qed.

Lemma idClear_sound p q : forall id,
  idClear p q = true -> idRun id = true -> matchHere p (id ++ q) = None.
Proof.
  induction p as [|a p IH]; intros id H Hid.
  - simpl in H. rewrite andb_false_r in H. discriminate.
  - cbn [idClear] in H. apply andb_true_iff in H. destruct H as [H0 H1].
    destruct id as [|c id]; simpl app.
    + destruct (matchHere (a :: p) q); [discriminate | reflexivity].
    + simpl in Hid. apply andb_true_iff in Hid. destruct Hid as [Hc Hid].
      rewrite matchHere_cons. destruct (atomMatches a c) eqn:A; [|reflexivity].
      rewrite (atomMatches_id _ _ A Hc) in H1. exact (IH id H1 Hid).
Qed.

Lemma hereClear_sound p q id : forall s,
  hereClear p s q = true -> idRun id = true ->
  matchHere p (s ++ id ++ q) = None.
Proof.
  induction p as [|a p IH]; intros s H Hid.
  - destruct s as [|c s]; simpl in H; [discriminate|].
    unfold matchHere. simpl. apply negb_true_iff in H. rewrite H. reflexivity.
  - destruct s as [|c s].
    + simpl app. apply idClear_sound; assumption.
    + cbn [hereClear] in H. simpl app. rewrite matchHere_cons.
      destruct (atomMatches a c); [exact (IH s H Hid) | reflexivity].
Qed.

Lemma scanClear_sound p tail q id : forall s,
  scanClear p s tail q = true -> idRun id = true ->
  regexMatch p (s ++ tail ++ id ++ q) = regexMatch p (tail ++ id ++ q).
Proof.
  induction s as [|c s IH]; intros H Hid; [reflexivity|].
  cbn [scanClear] in H. apply andb_true_iff in H. destruct H as [H0 H1].
  pose proof (hereClear_sound _ _ _ _ H0 Hid) as M.
  rewrite <- app_assoc in M. simpl app in *. cbn [regexMatch].
  rewrite M. exact (IH H1 Hid).
Qed.

Lemma regexMatch_skip_ids p q : forall id,
  startsWithId p = false -> idRun id = true ->
  regexMatch p (id ++ q) = regexMatch p q.
Proof.
  intros id Hp. induction id as [|c id IH]; intros Hid; [reflexivity|].
  simpl in Hid. apply andb_true_iff in Hid. destruct Hid as [Hc Hid].
  simpl app. cbn [regexMatch].
  destruct p as [|a p]; [discriminate|]. simpl in Hp.
  rewrite matchHere_cons.
  destruct (atomMatches a c) eqn:A.
  - rewrite (atomMatches_id _ _ A Hc) in Hp. discriminate.
  - exact (IH Hid).
Qed.

Lemma patternAbsent_sound p pre q id :
  patternAbsent p pre q = true -> idRun id = true ->
  regexMatch p (pre ++ id ++ q) = None.
Proof.
  unfold patternAbsent. intros H Hid.
  apply andb_true_iff in H. destruct H as [H H2].
  apply andb_true_iff in H. destruct H as [H0 H1].
  apply negb_true_iff in H1.
  pose proof (scanClear_sound _ _ _ _ _ H0 Hid) as S. simpl app in S.
  rewrite S, (regexMatch_skip_ids _ _ _ H1 Hid).
  destruct (regexMatch p q); [discriminate | reflexivity].
Qed.

Lemma matchPrefix_app p : forall s rest t,
  matchPrefix p s = Some rest -> matchPrefix p (s ++ t) = Some (rest ++ t).
Proof.
  induction p as [|a p IH]; intros s rest t H; simpl in *.
  - inversion H. reflexivity.
  - destruct s as [|c s]; [discriminate|]. simpl.
    destruct (atomMatches a c); [exact (IH _ _ _ H) | discriminate].
Qed.

Lemma patternHits_sound p pre mark q id :
  patternHits p pre mark q = true -> idRun id = true -> truthy id = true ->
  regexMatch p (pre ++ mark ++ id ++ q) = Some id.
Proof.
  unfold patternHits. intros H Hid Hne.
  apply andb_true_iff in H. destruct H as [H H2].
  apply andb_true_iff in H. destruct H as [H0 H1].
  rewrite (scanClear_sound _ _ _ _ _ H0 Hid).
  destruct (matchPrefix p mark) as [[|x r]|] eqn:M; try discriminate.
  assert (E : matchHere p (mark ++ id ++ q) = Some id).
  { unfold matchHere. rewrite (matchPrefix_app _ _ _ (id ++ q) M). simpl app.
    rewrite takeWhile_maximal.
    - destruct id; [discriminate | reflexivity].
    - apply idRun_Forall. exact Hid.
    - destruct q as [|c q]; [exact I|]. simpl. apply negb_true_iff. exact H2. }
  destruct (mark ++ id ++ q) eqn:S; cbn [regexMatch]; rewrite E; reflexivity.
Qed.

(** ** [includes] across a template *)

Lemma includes_app_l n a b : includes n a = true -> includes n (a ++ b) = true.
Proof.
  assert (S : forall n a, startsWith n a = true -> startsWith n (a ++ b) = true).
  { clear. induction n as [|x n IH]; intros a H; [reflexivity|].
    destruct a as [|c a]; [discriminate|]. simpl in *.
    apply andb_true_iff in H. destruct H as [H0 H1].
    rewrite H0, (IH _ H1). reflexivity. }
  induction a as [|c a IH]; cbn [app includes]; intros H.
  - rewrite orb_false_r in H. destruct n; [|discriminate].
    destruct b; reflexivity.
  - apply orb_true_iff in H. destruct H as [H|H].
    + change (c :: a ++ b) with ((c :: a) ++ b).
      rewrite (S _ (c :: a) H). reflexivity.
    + rewrite (IH H). apply orb_true_r.
Qed.

Lemma needleIdClear_sound n q : forall x,
  needleIdClear n q = true -> idRun x = true -> startsWith n (x ++ q) = false.
Proof.
  induction n as [|a n IH]; intros x H Hx.
  - simpl in H. discriminate.
  - cbn [needleIdClear] in H. apply andb_true_iff in H. destruct H as [H0 H1].
    destruct x as [|c x]; simpl app.
    + apply negb_true_iff. exact H0.
    + simpl in Hx. apply andb_true_iff in Hx. destruct Hx as [Hc Hx].
      cbn [startsWith]. destruct (N.eqb_spec a c) as [->|]; [|reflexivity].
      rewrite Hc in H1. exact (IH x H1 Hx).
Qed.

Lemma needleHereClear_sound n q x : forall s,
  needleHereClear n s q = true -> idRun x = true ->
  startsWith n (s ++ x ++ q) = false.
Proof.
  induction n as [|a n IH]; intros s H Hx.
  - destruct s; discriminate.
  - destruct s as [|c s].
    + simpl app. apply needleIdClear_sound; assumption.
    + cbn [needleHereClear] in H. simpl app. cbn [startsWith].
      destruct (a =? c); [exact (IH s H Hx) | reflexivity].
Qed.

Lemma includes_ids n q : forall x,
  needleIdClear n q = true -> includes n q = false -> idRun x = true ->
  includes n (x ++ q) = false.
Proof.
  intros x Hn Hq. induction x as [|c x IH]; intros Hx; [exact Hq|].
  simpl app. cbn [includes].
  change (c :: x ++ q) with ((c :: x) ++ q).
  rewrite (needleIdClear_sound _ _ _ Hn Hx). simpl in Hx.
  apply andb_true_iff in Hx. exact (IH (proj2 Hx)).
Qed.

Lemma needleAbsent_sound n pre q x :
  needleAbsent n pre q = true -> idRun x = true ->
  includes n (pre ++ x ++ q) = false.
Proof.
  unfold needleAbsent. intros H Hx.
  apply andb_true_iff in H. destruct H as [H H2].
  apply andb_true_iff in H. destruct H as [H0 H1].
  apply negb_true_iff in H2.
  induction pre as [|c pre IH].
  - simpl app. apply includes_ids; assumption.
  - cbn [needleScanClear] in H0. apply andb_true_iff in H0.
    destruct H0 as [Ha Hb]. simpl app. cbn [includes].
    change (c :: pre ++ x ++ q) with ((c :: pre) ++ x ++ q).
    rewrite (needleHereClear_sound _ _ _ _ Ha Hx). exact (IH Hb).
Qed.

(** ** The templates as inputs *)

Lemma trimEnd_nospace s :
  Forall (fun c => isWhiteSpace c = false) s -> trimEnd s = s.
Proof.
  intros H. induction H as [|c s Hc _ IH]; [reflexivity|].
  rewrite (trimEnd_cons_nonspace _ _ Hc), IH. reflexivity.
Qed.

Lemma trim_nospace s :
  Forall (fun c => isWhiteSpace c = false) s -> trim s = s.
Proof.
  intros H. unfold trim.
  assert (E : trimStart s = s).
  { destruct H as [|c s Hc _]; [reflexivity|]. simpl. rewrite Hc. reflexivity. }
  rewrite E. apply trimEnd_nospace. exact H.
Qed.

Lemma idRun_nospace id :
  idRun id = true -> Forall (fun c => isWhiteSpace c = false) id.
Proof.
  intros H. apply idRun_Forall in H.
  eapply Forall_impl; [|exact H]. intros c. apply idChar_not_space.
Qed.

Lemma nospace_check s :
  forallb (fun c => negb (isWhiteSpace c)) s = true ->
  Forall (fun c => isWhiteSpace c = false) s.
Proof.
  intros H. apply Forall_forall. intros c Hc.
  apply negb_true_iff. exact (proj1 (forallb_forall _ _) H c Hc).
Qed.

Lemma trim_template pre q id :
  forallb (fun c => negb (isWhiteSpace c)) pre = true ->
  forallb (fun c => negb (isWhiteSpace c)) q = true ->
  idRun id = true -> trim (pre ++ id ++ q) = pre ++ id ++ q.
Proof.
  intros Hp Hq Hid. apply trim_nospace.
  apply Forall_app. split; [apply nospace_check; exact Hp|].
  apply Forall_app. split; [apply idRun_nospace; exact Hid|].
  apply nospace_check. exact Hq.
Qed.

Lemma toLowerCase_app a b :
  toLowerCase (a ++ b) = toLowerCase a ++ toLowerCase b.
Proof. apply flat_map_app. Qed.

Lemma toLowerCase_idRun id : idRun id = true -> idRun (toLowerCase id) = true.
Proof.
  induction id as [|c id IH]; [reflexivity|]. simpl. intros H.
  apply andb_true_iff in H. destruct H as [Hc Hid]. specialize (IH Hid).
  unfold idRun, toLowerCase in *. cbn [flat_map].
  rewrite forallb_app, IH, andb_true_r.
  unfold lowerUnit, idChar in *. repeat case_if; simpl; lia.
Qed.

Lemma toLowerCase_template pre q id :
  toLowerCase pre = pre -> toLowerCase q = q ->
  toLowerCase (pre ++ id ++ q) = pre ++ toLowerCase id ++ q.
Proof. intros Hp Hq. rewrite !toLowerCase_app, Hp, Hq. reflexivity. Qed.

Lemma firstMatch_hit s id p ps : forall ps0,
  forallb (fun p' => match regexMatch p' s with None => true | _ => false end)
    ps0 = true ->
  regexMatch p s = Some id ->
  firstMatch (ps0 ++ p :: ps) s = Some id.
Proof.
  induction ps0 as [|p0 ps0 IH]; intros H0 H; simpl.
  - rewrite H, (regexMatch_truthy _ _ _ H). reflexivity.
  - simpl in H0. apply andb_true_iff in H0. destruct H0 as [Ha Hb].
    destruct (regexMatch p0 s); [discriminate|]. exact (IH Hb H).
Qed.

Lemma extract_from_template ps0 p ps pre mark q id :
  patterns = ps0 ++ p :: ps ->
  forallb (fun p' => patternAbsent p' (pre ++ mark) q) ps0 = true ->
  patternHits p pre mark q = true ->
  idRun id = true -> truthy id = true ->
  extractGoogleFileId (pre ++ mark ++ id ++ q) = Some id.
Proof.
  intros E Ha Hh Hid Hne. unfold extractGoogleFileId.
  rewrite (extractWith_firstMatch _ _ patterns_spaceFree), E.
  apply firstMatch_hit.
  - apply forallb_forall. intros p' Hp'.
    rewrite app_assoc.
    rewrite (patternAbsent_sound _ _ _ _
               (proj1 (forallb_forall _ _) Ha p' Hp') Hid).
    reflexivity.
  - apply patternHits_sound; assumption.
Qed.

Lemma google_from_template n pre rest :
  In n [lit "drive.google.com"; lit "docs.google.com"] ->
  includes n (toLowerCase pre) = true ->
  forallb (fun c => negb (isWhiteSpace c)) pre = true ->
  Forall (fun c => isWhiteSpace c = false) rest ->
  isProbablyGoogleLink (pre ++ rest) = true.
Proof.
  intros Hn Hi Hp Hr. unfold isProbablyGoogleLink.
  rewrite trim_nospace
    by (apply Forall_app; split; [apply nospace_check; exact Hp | exact Hr]).
  rewrite toLowerCase_app.
  destruct Hn as [<-|[<-|[]]]; rewrite (includes_app_l _ _ _ Hi);
    [reflexivity | apply orb_true_r].
Qed.

(** Each template, applied to an identifier, is classified Google-hosted
    and gives the identifier back. *)
Lemma template_facts id :
  idRun id = true -> truthy id = true ->
  (isProbablyGoogleLink (buildDriveDirectDownload id) = true /\
   extractGoogleFileId (buildDriveDirectDownload id) = Some id) /\
  (isProbablyGoogleLink (buildDriveDirectView id) = true /\
   extractGoogleFileId (buildDriveDirectView id) = Some id) /\
  (isProbablyGoogleLink (buildSlidesExportPptx id) = true /\
   extractGoogleFileId (buildSlidesExportPptx id) = Some id) /\
  (isProbablyGoogleLink (buildSlidesEmbed id) = true /\
   extractGoogleFileId (buildSlidesEmbed id) = Some id) /\
  (isProbablyGoogleLink (slidesExportPdf id) = true /\
   extractGoogleFileId (slidesExportPdf id) = Some id) /\
  (isProbablyGoogleLink (documentExportPdf id) = true /\
   extractGoogleFileId (documentExportPdf id) = Some id).
Proof.
  intros Hid Hne.
  pose proof (idRun_nospace _ Hid) as Hs.
  repeat split.
  - apply (google_from_template (lit "drive.google.com"));
      [left; reflexivity | reflexivity | reflexivity | exact Hs].
  - unfold buildDriveDirectDownload. rewrite <- (app_nil_r id) at 1.
    apply (extract_from_template
             [chars "/file/d/"; chars "/presentation/d/";
              chars "/document/d/"; chars "/spreadsheets/d/"]
             (Cls (lit "?&") :: chars "id=") [chars "/uc?id="]
             (lit "https://drive.google.com/uc?export=download")
             (lit "&id=") []); solve [reflexivity | assumption].
  - apply (google_from_template (lit "drive.google.com"));
      [left; reflexivity | reflexivity | reflexivity | exact Hs].
  - unfold buildDriveDirectView. rewrite <- (app_nil_r id) at 1.
    apply (extract_from_template
             [chars "/file/d/"; chars "/presentation/d/";
              chars "/document/d/"; chars "/spreadsheets/d/"]
             (Cls (lit "?&") :: chars "id=") [chars "/uc?id="]
             (lit "https://drive.google.com/uc?export=view")
             (lit "&id=") []); solve [reflexivity | assumption].
  - apply (google_from_template (lit "docs.google.com"));
      [right; left; reflexivity | reflexivity | reflexivity |].
    apply Forall_app. split; [exact Hs | apply nospace_check; reflexivity].
  - apply (extract_from_template
             [chars "/file/d/"] (chars "/presentation/d/")
             [chars "/document/d/"; chars "/spreadsheets/d/";
              Cls (lit "?&") :: chars "id="; chars "/uc?id="]
             (lit "https://docs.google.com") (lit "/presentation/d/")
             (lit "/export/pptx")); solve [reflexivity | assumption].
  - apply (google_from_template (lit "docs.google.com"));
      [right; left; reflexivity | reflexivity | reflexivity |].
    apply Forall_app. split; [exact Hs | apply nospace_check; reflexivity].
  - apply (extract_from_template
             [chars "/file/d/"] (chars "/presentation/d/")
             [chars "/document/d/"; chars "/spreadsheets/d/";
              Cls (lit "?&") :: chars "id="; chars "/uc?id="]
             (lit "https://docs.google.com") (lit "/presentation/d/")
             (lit "/embed?start=false&loop=false&delayms=3000"));
      solve [reflexivity | assumption].
  - apply (google_from_template (lit "docs.google.com"));
      [right; left; reflexivity | reflexivity | reflexivity |].
    apply Forall_app. split; [exact Hs | apply nospace_check; reflexivity].
  - apply (extract_from_template
             [chars "/file/d/"] (chars "/presentation/d/")
             [chars "/document/d/"; chars "/spreadsheets/d/";
              Cls (lit "?&") :: chars "id="; chars "/uc?id="]
             (lit "https://docs.google.com") (lit "/presentation/d/")
             (lit "/export/pdf")); solve [reflexivity | assumption].
  - apply (google_from_template (lit "docs.google.com"));
      [right; left; reflexivity | reflexivity | reflexivity |].
    apply Forall_app. split; [exact Hs | apply nospace_check; reflexivity].
  - apply (extract_from_template
             [chars "/file/d/"; chars "/presentation/d/"]
             (chars "/document/d/")
             [chars "/spreadsheets/d/";
              Cls (lit "?&") :: chars "id="; chars "/uc?id="]
             (lit "https://docs.google.com") (lit "/document/d/")
             (lit "/export?format=pdf")); solve [reflexivity | assumption].
Qed.

Lemma extractGoogleFileId_idRun input id :
  extractGoogleFileId input = Some id -> idRun id = true /\ truthy id = true.
Proof.
  unfold extractGoogleFileId, extractWith. intros H.
  destruct (negb (truthy (trim input))); [discriminate|].
  destruct (firstMatch_regexMatch _ _ _ H) as (p & _ & R). split.
  - apply idRun_Forall. exact (regexMatch_idChars _ _ _ R).
  - exact (regexMatch_truthy _ _ _ R).
Qed.

Lemma convertLink_trim input type :
  convertLink (trim input) type = convertLink input type.
Proof. unfold convertLink. rewrite trim_idem. reflexivity. Qed.

(** What the pdf case reads in each of its three export URLs. *)
Lemma pdf_tests_slides id :
  idRun id = true ->
  includes (lit "docs.google.com/presentation")
    (toLowerCase (trim (slidesExportPdf id))) = true.
Proof.
  intros Hid. unfold slidesExportPdf.
  rewrite trim_template by (reflexivity || assumption).
  rewrite toLowerCase_app. apply includes_app_l. reflexivity.
Qed.

Lemma pdf_tests_document id :
  idRun id = true ->
  includes (lit "docs.google.com/presentation")
    (toLowerCase (trim (documentExportPdf id))) = false /\
  includes (lit "docs.google.com/document")
    (toLowerCase (trim (documentExportPdf id))) = true.
Proof.
  intros Hid. unfold documentExportPdf.
  rewrite trim_template by (reflexivity || assumption). split.
  - rewrite toLowerCase_template by reflexivity.
    apply needleAbsent_sound; [reflexivity|].
    apply toLowerCase_idRun. exact Hid.
  - rewrite toLowerCase_app. apply includes_app_l. reflexivity.
Qed.

Lemma pdf_tests_download id :
  idRun id = true ->
  includes (lit "docs.google.com/presentation")
    (toLowerCase (trim (buildDriveDirectDownload id))) = false /\
  includes (lit "docs.google.com/document")
    (toLowerCase (trim (buildDriveDirectDownload id))) = false.
Proof.
  intros Hid. unfold buildDriveDirectDownload.
  rewrite <- (app_nil_r id).
  rewrite trim_template by (reflexivity || assumption).
  rewrite toLowerCase_template by reflexivity.
  split; (apply needleAbsent_sound;
          [reflexivity | apply toLowerCase_idRun; exact Hid]).
Qed.

(** ** Properties of the resolver beyond the claims *)

(** X1.  White space around the input changes nothing: with any run of
    white-space characters before and after it, the input is classified
    the same, gives the same identifier, and [convertLink] and the page
    give the same outcome. *)
Theorem X1_surrounding_space_ignored (w1 w2 input : jsstring)
    (type : FileType) (force : bool) :
  Forall (fun c => isWhiteSpace c = true) w1 ->
  Forall (fun c => isWhiteSpace c = true) w2 ->
  isProbablyGoogleLink (w1 ++ input ++ w2) = isProbablyGoogleLink input /\
  extractGoogleFileId (w1 ++ input ++ w2) = extractGoogleFileId input /\
  convertLink (w1 ++ input ++ w2) type = convertLink input type /\
  pageResult (w1 ++ input ++ w2) type force = pageResult input type force.
Proof.
  intros H1 H2.
  assert (T : trim (w1 ++ input ++ w2) = trim input).
  { unfold trim.
    assert (A : trimStart (w1 ++ input ++ w2) = trimStart (input ++ w2)).
    { induction H1 as [|c w Hc _ IH]; [reflexivity|].
      simpl. rewrite Hc. exact IH. }
    rewrite A. clear A H1.
    assert (E : trimEnd (trimStart w2) = []).
    { induction H2 as [|c w Hc _ IH]; [reflexivity|].
      simpl. rewrite Hc. exact IH. }
    assert (B : forall s, trimEnd (s ++ w2) = trimEnd s).
    { induction s as [|c s IH]; simpl.
      - clear E. induction H2 as [|c w Hc _ IH]; [reflexivity|].
        simpl. rewrite IH, Hc. reflexivity.
      - rewrite IH. reflexivity. }
    induction input as [|c s IH]; simpl.
    - exact E.
    - destruct (isWhiteSpace c); [exact IH|].
      change (c :: s ++ w2) with ((c :: s) ++ w2). apply B. }
  unfold pageResult, convertLink, isProbablyGoogleLink, extractGoogleFileId,
    extractWith.
  rewrite T. repeat split.
Qed.

Lemma X1_witness :
  Forall (fun c => isWhiteSpace c = true) [32; 9] /\
  Forall (fun c => isWhiteSpace c = true) [10] /\
  isProbablyGoogleLink ([32; 9] ++ sampleSlidesLink ++ [10]) =
    isProbablyGoogleLink sampleSlidesLink /\
  extractGoogleFileId ([32; 9] ++ sampleSlidesLink ++ [10]) =
    extractGoogleFileId sampleSlidesLink /\
  convertLink ([32; 9] ++ sampleSlidesLink ++ [10]) pdf =
    convertLink sampleSlidesLink pdf /\
  pageResult ([32; 9] ++ sampleSlidesLink ++ [10]) pdf true =
    pageResult sampleSlidesLink pdf true.
Proof.
  split; [repeat constructor|]. split; [repeat constructor|].
  apply (X1_surrounding_space_ignored [32; 9] [10] sampleSlidesLink pdf true);
    repeat constructor.
Defined.

Lemma atomMatches_two x y c :
  atomMatches (Cls [x; y]) c = true -> c = x \/ c = y.
Proof. unfold atomMatches. cbn [existsb]. lia. Qed.

(** X2.  An extracted identifier is a piece of the input: it is not
    empty, it is made of the characters [a-zA-Z0-9_-], it stands in the
    input right after one of the markers [/file/d/], [/presentation/d/],
    [/document/d/], [/spreadsheets/d/], [?id=], [&id=], and it runs up to
    the first character that is not an identifier character. *)
Theorem X2_identifier_is_part_of_input (input id : jsstring) :
  extractGoogleFileId input = Some id ->
  truthy id = true /\ idRun id = true /\
  exists before marker after,
    input = before ++ marker ++ id ++ after /\
    In marker [lit "/file/d/"; lit "/presentation/d/"; lit "/document/d/";
               lit "/spreadsheets/d/"; lit "?id="; lit "&id="] /\
    headNot idChar after.
Proof.
  intros H. destruct (extractGoogleFileId_idRun _ _ H) as [Hid Hne].
  split; [exact Hne|]. split; [exact Hid|].
  unfold extractGoogleFileId in H.
  rewrite (extractWith_firstMatch _ _ patterns_spaceFree) in H.
  destruct (firstMatch_regexMatch _ _ _ H) as (p & Hp & R).
  destruct (regexMatch_finds _ _ _ R) as (l & pre & r & E & Ha & _ & _ & Hr & _).
  destruct Hp as [<-|[<-|[<-|[<-|[<-|[<-|[]]]]]]].
  - apply accepts_chars_eq in Ha. subst pre.
    exists l, (lit "/file/d/"), r. repeat split; simpl; auto.
  - apply accepts_chars_eq in Ha. subst pre.
    exists l, (lit "/presentation/d/"), r. repeat split; simpl; auto.
  - apply accepts_chars_eq in Ha. subst pre.
    exists l, (lit "/document/d/"), r. repeat split; simpl; auto.
  - apply accepts_chars_eq in Ha. subst pre.
    exists l, (lit "/spreadsheets/d/"), r. repeat split; simpl; auto.
  - inversion Ha as [|a c p' pre' Hc Hrest]; subst.
    apply (accepts_chars_eq (lit "id=")) in Hrest. subst pre'.
    apply (atomMatches_two 63 38) in Hc. destruct Hc as [Hc|Hc]; subst c.
    + exists l, (lit "?id="), r. repeat split; simpl; auto 7.
    + exists l, (lit "&id="), r. repeat split; simpl; auto 7.
  - apply accepts_chars_eq in Ha. subst pre.
    exists (l ++ lit "/uc"), (lit "?id="), r. repeat split; simpl; auto 7.
    rewrite E, <- app_assoc. reflexivity.
Qed.

Lemma X2_witness :
  extractGoogleFileId sampleSlidesLink = Some sampleId /\
  truthy sampleId = true /\ idRun sampleId = true /\
  exists before marker after,
    sampleSlidesLink = before ++ marker ++ sampleId ++ after /\
    In marker [lit "/file/d/"; lit "/presentation/d/"; lit "/document/d/";
               lit "/spreadsheets/d/"; lit "?id="; lit "&id="] /\
    headNot idChar after.
Proof.
  split; [vm_compute; reflexivity|].
  apply (X2_identifier_is_part_of_input sampleSlidesLink sampleId).
  vm_compute; reflexivity.
Defined.

(** X3.  Every URL the converter builds from an identifier can be pasted
    back: each of the six templates, applied to a non-empty run of
    identifier characters, is classified Google-hosted and the extractor
    returns that identifier from it. *)
Theorem X3_templates_give_identifier_back (id : jsstring) :
  idRun id = true -> truthy id = true ->
  Forall (fun url => isProbablyGoogleLink url = true /\
                     extractGoogleFileId url = Some id)
    [buildDriveDirectDownload id; buildDriveDirectView id;
     buildSlidesExportPptx id; buildSlidesEmbed id;
     slidesExportPdf id; documentExportPdf id].
Proof.
  intros Hid Hne.
  destruct (template_facts id Hid Hne) as (A & B & C & D & E & F).
  repeat (apply Forall_cons; [assumption|]). apply Forall_nil.
Qed.

Lemma X3_witness :
  idRun sampleId = true /\ truthy sampleId = true /\
  Forall (fun url => isProbablyGoogleLink url = true /\
                     extractGoogleFileId url = Some sampleId)
    [buildDriveDirectDownload sampleId; buildDriveDirectView sampleId;
     buildSlidesExportPptx sampleId; buildSlidesEmbed sampleId;
     slidesExportPdf sampleId; documentExportPdf sampleId].
Proof.
  split; [vm_compute; reflexivity|]. split; [vm_compute; reflexivity|].
  apply (X3_templates_give_identifier_back sampleId); vm_compute; reflexivity.
Defined.

Lemma isWellFormed_trimStart_eq s :
  isWellFormed (trimStart s) = isWellFormed s.
Proof.
  induction s as [|c s IH]; [reflexivity|].
  cbn [trimStart]. destruct (isWhiteSpace c) eqn:W; [|reflexivity].
  destruct (space_not_surrogate _ W) as [Hh Hl].
  cbn [isWellFormed]. rewrite Hh, Hl. exact IH.
Qed.

Lemma trimEnd_head d r :
  trimEnd (d :: r) = [] \/ exists t, trimEnd (d :: r) = d :: t.
Proof.
  cbn [trimEnd]. destruct (trimEnd r) as [|x t].
  - destruct (isWhiteSpace d); [left; reflexivity | right; exists []; reflexivity].
  - right. exists (x :: t). reflexivity.
Qed.

Lemma isWellFormed_trimEnd_eq : forall s,
  isWellFormed (trimEnd s) = isWellFormed s.
Proof.
  induction s as [|c r IH1 IH2] using jsstring_pair_ind; [reflexivity|].
  destruct (isHighSurrogate c) eqn:Hh.
  - rewrite trimEnd_cons_nonspace
      by (apply surrogate_not_space; rewrite Hh; reflexivity).
    destruct r as [|d r']; [reflexivity|].
    cbn [isWellFormed]. rewrite Hh.
    destruct (isLowSurrogate d) eqn:Hd.
    + rewrite trimEnd_cons_nonspace
        by (apply surrogate_not_space; rewrite Hd; apply orb_true_r).
      rewrite Hd. simpl. exact (IH2 d r' eq_refl).
    + destruct (trimEnd_head d r') as [T|(t & T)]; rewrite T, ?Hd;
        reflexivity.
  - destruct (isLowSurrogate c) eqn:Hl.
    + rewrite trimEnd_cons_nonspace
        by (apply surrogate_not_space; rewrite Hl; apply orb_true_r).
      cbn [isWellFormed]. rewrite Hh, Hl. reflexivity.
    + cbn [trimEnd isWellFormed]. rewrite Hh, Hl, <- IH1.
      destruct (trimEnd r) as [|d t].
      * destruct (isWhiteSpace c); [reflexivity|].
        cbn [isWellFormed]. rewrite Hh, Hl. reflexivity.
      * cbn [isWellFormed]. rewrite Hh, Hl. reflexivity.
Qed.

Lemma isWellFormed_trim_eq s : isWellFormed (trim s) = isWellFormed s.
Proof.
  unfold trim. rewrite isWellFormed_trimEnd_eq. apply isWellFormed_trimStart_eq.
Qed.

Lemma encodeURIComponent_throws s :
  isWellFormed s = false -> encodeURIComponent s = Throw URIError.
Proof.
  intros H. destruct (encodeURIComponent s) as [e|[]] eqn:E; [|reflexivity].
  assert (W : isWellFormed s = true)
    by (apply encodeURIComponent_wellFormed; exists e; exact E).
  rewrite W in H. discriminate.
Qed.

(** The export URL of a returned result is not empty, and for ppt the
    Microsoft viewer accepts it. *)
Lemma exportUrl_viewable input type r e :
  convertLink input type = Normal r -> exportUrl r = Some e ->
  truthy e = true /\
  (type = ppt -> exists p, buildMicrosoftOfficeViewer e = Normal p).
Proof.
  intros H He.
  destruct (convertLink_cases input type)
    as [[_ E]|[(_ & _ & _ & E)|[(id & _ & _ & X & E)|(T & _ & E)]]];
    rewrite E in H.
  - inversion H; subst r. discriminate.
  - inversion H; subst r. discriminate.
  - destruct (extractGoogleFileId_id _ _ X) as [_ Hid].
    destruct (templates_ascii id Hid) as (Hd & Hp & Hs & Hx).
    destruct type; cbn [convertGoogle] in H.
    + inversion H; subst r. cbn [exportUrl] in He. inversion He; subst e.
      split; [reflexivity|]. intros _.
      destruct (encodeURIComponent_ascii _ Hp) as (x & Hx').
      unfold buildMicrosoftOfficeViewer. rewrite Hx'. eexists. reflexivity.
    + destruct (buildDocsViewer _); [|discriminate].
      inversion H; subst r. cbn [exportUrl] in He. inversion He; subst e.
      split; [repeat case_if; reflexivity | discriminate].
    + inversion H; subst r. cbn [exportUrl] in He. inversion He; subst e.
      split; [reflexivity | discriminate].
    + inversion H; subst r. cbn [exportUrl] in He. inversion He; subst e.
      split; [reflexivity | discriminate].
    + inversion H; subst r. cbn [exportUrl] in He. inversion He; subst e.
      split; [reflexivity | discriminate].
  - destruct type; cbn [convertDirect] in H.
    + destruct (buildMicrosoftOfficeViewer (trim input)) as [p|] eqn:B;
        [|discriminate].
      inversion H; subst r. cbn [exportUrl] in He. inversion He; subst e.
      split; [exact T|]. intros _. exists p. exact B.
    + destruct (buildDocsViewer _); [|discriminate].
      inversion H; subst r. cbn [exportUrl] in He. inversion He; subst e.
      split; [exact T | discriminate].
    + inversion H; subst r. cbn [exportUrl] in He. inversion He; subst e.
      split; [exact T | discriminate].
    + inversion H; subst r. cbn [exportUrl] in He. inversion He; subst e.
      split; [exact T | discriminate].
    + inversion H; subst r. cbn [exportUrl] in He. inversion He; subst e.
      split; [exact T | discriminate].
Qed.

Lemma pageResult_returns input type force r :
  convertLink input type = Normal r ->
  exists r', pageResult input type force = Normal r'.
Proof.
  intros H. unfold pageResult. rewrite H. cbn [bind].
  destruct (exportUrl r) as [e|] eqn:He; [|eexists; reflexivity].
  destruct (exportUrl_viewable _ _ _ _ H He) as [T V].
  destruct type; cbn [isPpt andb]; try (eexists; reflexivity).
  destruct force; cbn [andb]; [|eexists; reflexivity].
  rewrite T. destruct (V eq_refl) as (p & ->). eexists. reflexivity.
Qed.

(** X4.  When the resolver throws.  [convertLink] throws (a URIError)
    exactly when the input is not classified Google-hosted, the type is
    ppt or pdf, and the input holds an unpaired surrogate; in every other
    case it returns.  The page's result throws exactly when [convertLink]
    does, whatever the toggle. *)
Theorem X4_throws_exactly_when (input : jsstring) (type : FileType)
    (force : bool) :
  (convertLink input type = Throw URIError <->
   isProbablyGoogleLink input = false /\ (type = ppt \/ type = pdf) /\
   isWellFormed input = false) /\
  ((exists r, convertLink input type = Normal r) <->
   convertLink input type <> Throw URIError) /\
  (pageResult input type force = Throw URIError <->
   convertLink input type = Throw URIError).
Proof.
  assert (A : convertLink input type = Throw URIError <->
              isProbablyGoogleLink input = false /\
              (type = ppt \/ type = pdf) /\ isWellFormed input = false).
  { split.
    - intros H. destruct (convertLink_throws_only _ _ _ H) as (G & Ht & W & _).
      rewrite isWellFormed_trim_eq in W. repeat split; assumption.
    - intros (G & Ht & W). rewrite <- isWellFormed_trim_eq in W.
      assert (T : truthy (trim input) = true)
        by (destruct (trim input); [discriminate | reflexivity]).
      rewrite (convertLink_direct _ _ T G).
      destruct Ht as [-> | ->]; cbn [convertDirect];
        unfold buildMicrosoftOfficeViewer, buildDocsViewer;
        rewrite (encodeURIComponent_throws _ W); reflexivity. }
  split; [exact A|]. split.
  - split.
    + intros (r & H) N. rewrite H in N. discriminate.
    + intros N. destruct (convertLink input type) as [r|[]];
        [exists r; reflexivity | contradiction].
  - split.
    + intros H. destruct (convertLink input type) as [r|[]] eqn:C;
        [|reflexivity].
      destruct (pageResult_returns _ _ force _ C) as (r' & Hr).
      rewrite Hr in H. discriminate.
    + intros H. unfold pageResult. rewrite H. reflexivity.
Qed.

(** X5.  Converting a converted link changes nothing: when [convertLink]
    returns a result with an export URL, [convertLink] on that export URL
    (same type) returns the same result. *)
Theorem X5_export_url_is_fixed_point (input : jsstring) (type : FileType)
    (r : ConvertResult) (e : jsstring) :
  convertLink input type = Normal r ->
  exportUrl r = Some e ->
  convertLink e type = Normal r.
Proof.
  intros H He.
  destruct (convertLink_cases input type)
    as [[_ E]|[(_ & _ & _ & E)|[(id & _ & _ & X & E)|(T & _ & E)]]].
  - rewrite E in H. inversion H; subst r. discriminate.
  - rewrite E in H. inversion H; subst r. discriminate.
  - rewrite E in H.
    destruct (extractGoogleFileId_idRun _ _ X) as [Hid Hne].
    destruct (template_facts id Hid Hne)
      as ((G1 & X1) & (G2 & X2) & (G3 & X3) & _ & (G5 & X5) & (G6 & X6)).
    destruct type; cbn [convertGoogle] in H.
    + inversion H; subst r. cbn [exportUrl] in He. inversion He; subst e.
      rewrite (convertLink_google _ _ _ G3 X3). reflexivity.
    + destruct (buildDocsViewer _) as [p|] eqn:B; [|discriminate].
      inversion H; subst r. cbn [exportUrl] in He. inversion He; subst e.
      clear H He.
      destruct (includes (lit "docs.google.com/presentation")
                  (toLowerCase (trim input))).
      * rewrite (convertLink_google _ _ _ G5 X5). cbn [convertGoogle].
        rewrite (pdf_tests_slides _ Hid), B. reflexivity.
      * destruct (includes (lit "docs.google.com/document")
                    (toLowerCase (trim input))).
        -- rewrite (convertLink_google _ _ _ G6 X6). cbn [convertGoogle].
           destruct (pdf_tests_document _ Hid) as [-> ->].
           rewrite B. reflexivity.
        -- assert (D : (if includes (lit "docs.google.com/spreadsheets")
                             (toLowerCase (trim input))
                        then buildDriveDirectDownload id
                        else buildDriveDirectDownload id)
                       = buildDriveDirectDownload id)
             by (case_if; reflexivity).
           rewrite D in *.
           rewrite (convertLink_google _ _ _ G1 X1). cbn [convertGoogle].
           destruct (pdf_tests_download _ Hid) as [-> ->].
           assert (D' : (if includes (lit "docs.google.com/spreadsheets")
                              (toLowerCase (trim (buildDriveDirectDownload id)))
                         then buildDriveDirectDownload id
                         else buildDriveDirectDownload id)
                        = buildDriveDirectDownload id)
             by (case_if; reflexivity).
           rewrite D', B. reflexivity.
    + inversion H; subst r. cbn [exportUrl] in He. inversion He; subst e.
      rewrite (convertLink_google _ _ _ G2 X2). reflexivity.
    + inversion H; subst r. cbn [exportUrl] in He. inversion He; subst e.
      rewrite (convertLink_google _ _ _ G1 X1). reflexivity.
    + inversion H; subst r. cbn [exportUrl] in He. inversion He; subst e.
      rewrite (convertLink_google _ _ _ G1 X1). reflexivity.
  - assert (Et : e = trim input).
    { rewrite E in H. destruct type; cbn [convertDirect] in H.
      - destruct (buildMicrosoftOfficeViewer _); [|discriminate].
        inversion H; subst r. cbn [exportUrl] in He. inversion He. reflexivity.
      - destruct (buildDocsViewer _); [|discriminate].
        inversion H; subst r. cbn [exportUrl] in He. inversion He. reflexivity.
      - inversion H; subst r. cbn [exportUrl] in He. inversion He. reflexivity.
      - inversion H; subst r. cbn [exportUrl] in He. inversion He. reflexivity.
      - inversion H; subst r. cbn [exportUrl] in He. inversion He. reflexivity. }
    subst e. rewrite convertLink_trim. exact H.
Qed.

Lemma X5_witness :
  exists r e,
    convertLink sampleSheetsLink pdf = Normal r /\
    exportUrl r = Some e /\
    convertLink e pdf = Normal r.
Proof.
  eexists. eexists.
  split; [vm_compute; reflexivity|]. split; [reflexivity|].
  apply (X5_export_url_is_fixed_point sampleSheetsLink pdf);
    [vm_compute; reflexivity | reflexivity].
Defined.

(** A returned result is an error and nothing else, or it has no error
    and a non-empty export URL, a non-empty preview URL and notes. *)
Lemma result_shape input type r :
  convertLink input type = Normal r ->
  (r = errorResult emptyInputError \/ r = errorResult malformedGoogleError)
  \/
  (error r = None /\
   exists e p n,
     exportUrl r = Some e /\ truthy e = true /\
     previewUrl r = Some p /\ truthy p = true /\
     notes r = Some n /\ n <> []).
Proof.
  intros H.
  destruct (convertLink_cases input type)
    as [[_ E]|[(_ & _ & _ & E)|[(id & _ & _ & X & E)|(T & _ & E)]]];
    rewrite E in H.
  - inversion H. left. left. reflexivity.
  - inversion H. left. right. reflexivity.
  - right. destruct type; cbn [convertGoogle] in H.
    + inversion H; subst r. split; [reflexivity|].
      do 3 eexists. repeat split; discriminate.
    + unfold buildDocsViewer in H.
      destruct (encodeURIComponent _); [|discriminate]. cbn [bind] in H.
      inversion H; subst r. split; [reflexivity|].
      do 3 eexists. repeat split; try discriminate.
      repeat case_if; reflexivity.
    + inversion H; subst r. split; [reflexivity|].
      do 3 eexists. repeat split; discriminate.
    + inversion H; subst r. split; [reflexivity|].
      do 3 eexists. repeat split; discriminate.
    + inversion H; subst r. split; [reflexivity|].
      do 3 eexists. repeat split; discriminate.
  - right. destruct type; cbn [convertDirect] in H.
    + unfold buildMicrosoftOfficeViewer in H.
      destruct (encodeURIComponent _); [|discriminate]. cbn [bind] in H.
      inversion H; subst r. split; [reflexivity|].
      do 3 eexists. repeat split; try discriminate. exact T.
    + unfold buildDocsViewer in H.
      destruct (encodeURIComponent _); [|discriminate]. cbn [bind] in H.
      inversion H; subst r. split; [reflexivity|].
      do 3 eexists. repeat split; try discriminate. exact T.
    + inversion H; subst r. split; [reflexivity|].
      do 3 eexists. repeat split; try discriminate; exact T.
    + inversion H; subst r. split; [reflexivity|].
      do 3 eexists. repeat split; try discriminate; exact T.
    + inversion H; subst r. split; [reflexivity|].
      do 3 eexists. repeat split; try discriminate; exact T.
Qed.

(** X6.  What a returned result looks like: either it is one of the two
    error records, with every other field absent, or it has no error and
    carries a non-empty export URL, a non-empty preview URL and at least
    one note. *)
Theorem X6_error_or_complete_result (input : jsstring) (type : FileType)
    (r : ConvertResult) :
  convertLink input type = Normal r ->
  (r = mkResult None None None None None (Some emptyInputError) \/
   r = mkResult None None None None None (Some malformedGoogleError))
  \/
  (error r = None /\
   exists e p n,
     exportUrl r = Some e /\ truthy e = true /\
     previewUrl r = Some p /\ truthy p = true /\
     notes r = Some n /\ n <> []).
Proof. exact (result_shape input type r). Qed.

Lemma X6_witness :
  exists r,
    convertLink sampleDirectLink ppt = Normal r /\
    ((r = mkResult None None None None None (Some emptyInputError) \/
      r = mkResult None None None None None (Some malformedGoogleError))
     \/
     (error r = None /\
      exists e p n,
        exportUrl r = Some e /\ truthy e = true /\
        previewUrl r = Some p /\ truthy p = true /\
        notes r = Some n /\ n <> [])).
Proof.
  eexists. split; [vm_compute; reflexivity|].
  apply (X6_error_or_complete_result sampleDirectLink ppt).
  vm_compute; reflexivity.
Defined.

(** ** The preview and the export URL *)

Lemma asciiOnly_validUnits s : asciiOnly s = true -> validUnits s = true.
Proof.
  unfold asciiOnly, validUnits. rewrite !forallb_forall.
  intros H c Hc. specialize (H c Hc). lia.
Qed.

Lemma validUnits_trimStart s :
  validUnits s = true -> validUnits (trimStart s) = true.
Proof.
  induction s as [|c s IH]; [reflexivity|]. intros H. cbn [trimStart].
  destruct (isWhiteSpace c); [|exact H].
  simpl in H. apply andb_true_iff in H. exact (IH (proj2 H)).
Qed.

Lemma validUnits_trimEnd s :
  validUnits s = true -> validUnits (trimEnd s) = true.
Proof.
  induction s as [|c s IH]; [reflexivity|]. intros H.
  simpl in H. apply andb_true_iff in H. destruct H as [Hc Hs].
  specialize (IH Hs). cbn [trimEnd]. destruct (trimEnd s) as [|d t].
  - destruct (isWhiteSpace c); [reflexivity|]. simpl. rewrite Hc. reflexivity.
  - cbn [validUnits forallb] in *. rewrite Hc. exact IH.
Qed.

Lemma validUnits_trim s : validUnits s = true -> validUnits (trim s) = true.
Proof.
  intros H. apply validUnits_trimEnd, validUnits_trimStart, H.
Qed.

Lemma viewer_params u :
  validUnits u = true ->
  (forall g, buildDocsViewer u = Normal g ->
             decodedParam "url" g = Some (Normal u)) /\
  (forall o, buildMicrosoftOfficeViewer u = Normal o ->
             decodedParam "src" o = Some (Normal u)).
Proof.
  intros V. unfold buildDocsViewer, buildMicrosoftOfficeViewer, decodedParam.
  destruct (encodeURIComponent u) as [e|] eqn:He; cbn [bind];
    [|split; discriminate].
  pose proof (encodeURIComponent_fieldChars _ _ He) as F.
  split; intros x Hx; apply (f_equal (fun c => match c with Normal a => a | Throw _ => [] end)) in Hx; cbv beta iota in Hx; subst x.
  - rewrite (queryParam_docsViewer _ F). cbn [option_map].
    rewrite (decodeURIComponent_encode _ _ V He). reflexivity.
  - rewrite (proj1 (queryParam_officeViewer _ F)). cbn [option_map].
    rewrite (decodeURIComponent_encode _ _ V He). reflexivity.
Qed.

(** What [convertLink] puts in the preview URL, by type. *)
Lemma preview_of input type r e p :
  convertLink input type = Normal r ->
  exportUrl r = Some e -> previewUrl r = Some p ->
  (validUnits input = true -> validUnits e = true) /\
  match type with
  | pdf => buildDocsViewer e = Normal p
  | ppt =>
      if isProbablyGoogleLink input then embedUrl r = Some p
      else buildMicrosoftOfficeViewer e = Normal p
  | _ => p = e
  end.
Proof.
  intros H He Hp.
  destruct (convertLink_cases input type)
    as [[_ E]|[(_ & _ & _ & E)|[(id & _ & G & X & E)|(T & G & E)]]];
    rewrite E in H.
  - inversion H; subst r. discriminate.
  - inversion H; subst r. discriminate.
  - destruct (extractGoogleFileId_id _ _ X) as [_ Hid].
    destruct (templates_ascii id Hid) as (Hd & Hx & Hs & Hc).
    assert (Hv : asciiOnly (buildDriveDirectView id) = true).
    { unfold buildDriveDirectView. rewrite asciiOnly_app, Hid. reflexivity. }
    rewrite G. destruct type; cbn [convertGoogle] in H.
    + inversion H; subst r. cbn in He, Hp. inversion He; inversion Hp; subst.
      split; [intros _; apply asciiOnly_validUnits; exact Hx | reflexivity].
    + destruct (buildDocsViewer _) as [g|] eqn:B; [|discriminate].
      inversion H; subst r. cbn in He, Hp. inversion He; inversion Hp; subst.
      split; [|exact B]. intros _. apply asciiOnly_validUnits.
      repeat case_if; assumption.
    + inversion H; subst r. cbn in He, Hp. inversion He; inversion Hp; subst.
      split; [intros _; apply asciiOnly_validUnits; exact Hv | reflexivity].
    + inversion H; subst r. cbn in He, Hp. inversion He; inversion Hp; subst.
      split; [intros _; apply asciiOnly_validUnits; exact Hd | reflexivity].
    + inversion H; subst r. cbn in He, Hp. inversion He; inversion Hp; subst.
      split; [intros _; apply asciiOnly_validUnits; exact Hd | reflexivity].
  - rewrite G. destruct type; cbn [convertDirect] in H.
    + destruct (buildMicrosoftOfficeViewer _) as [g|] eqn:B; [|discriminate].
      inversion H; subst r. cbn in He, Hp. inversion He; inversion Hp; subst.
      split; [apply validUnits_trim | exact B].
    + destruct (buildDocsViewer _) as [g|] eqn:B; [|discriminate].
      inversion H; subst r. cbn in He, Hp. inversion He; inversion Hp; subst.
      split; [apply validUnits_trim | exact B].
    + inversion H; subst r. cbn in He, Hp. inversion He; inversion Hp; subst.
      split; [apply validUnits_trim | reflexivity].
    + inversion H; subst r. cbn in He, Hp. inversion He; inversion Hp; subst.
      split; [apply validUnits_trim | reflexivity].
    + inversion H; subst r. cbn in He, Hp. inversion He; inversion Hp; subst.
      split; [apply validUnits_trim | reflexivity].
Qed.

(** The two ways the page's result comes from [convertLink]. *)
Lemma pageResult_cases input type force r :
  pageResult input type force = Normal r ->
  exists r0,
    convertLink input type = Normal r0 /\
    ((type = ppt /\ force = true /\
      exists e p n,
        exportUrl r0 = Some e /\ buildMicrosoftOfficeViewer e = Normal p /\
        notes r0 = Some n /\
        r = mkResult (fileId r0) (Some e) (embedUrl r0) (Some p)
              (Some (n ++ [msViewerNote])) None /\ error r0 = None) \/
     (r = r0 /\ (type <> ppt \/ force = false \/ exportUrl r0 = None))).
Proof.
  unfold pageResult. intros H.
  destruct (convertLink input type) as [r0|] eqn:C; [|discriminate].
  cbn [bind] in H. exists r0. split; [reflexivity|].
  destruct (exportUrl r0) as [e|] eqn:He;
    [|inversion H; right; split; [reflexivity | auto]].
  destruct (exportUrl_viewable _ _ _ _ C He) as [T V].
  destruct type; cbn [isPpt andb] in H;
    try (inversion H; right; split; [reflexivity | left; discriminate]).
  destruct force; cbn [andb] in H;
    [|inversion H; right; split; [reflexivity | auto]].
  rewrite T in H. destruct (V eq_refl) as (p & Hp). rewrite Hp in H.
  cbn [bind] in H. left. split; [reflexivity|]. split; [reflexivity|].
  destruct (result_shape _ _ _ C) as [[-> | ->]|(Er & e' & p' & n & _ & _ & _ & _ & Hn & _)];
    try discriminate.
  exists e, p, n. rewrite Hn, Er in H. inversion H.
  repeat split; assumption.
Qed.

(** X7.  The preview shows the export target.  In every result of the
    page: for pdf the [url=] parameter of the preview URL decodes to the
    export URL; for ppt shown through the Microsoft viewer (toggle set, or
    a link that is not Google-hosted) the [src=] parameter decodes to the
    export URL; for image, video and audio the preview URL is the export
    URL. *)
Theorem X7_preview_shows_export_target (input : jsstring) (type : FileType)
    (force : bool) (r : ConvertResult) (e p : jsstring) :
  validUnits input = true ->
  pageResult input type force = Normal r ->
  exportUrl r = Some e -> previewUrl r = Some p ->
  (type = pdf -> decodedParam "url" p = Some (Normal e)) /\
  (type = ppt -> force = true \/ isProbablyGoogleLink input = false ->
   decodedParam "src" p = Some (Normal e)) /\
  (type = image \/ type = video \/ type = audio -> p = e).
Proof.
  intros V H He Hp.
  destruct (pageResult_cases _ _ _ _ H)
    as (r0 & C & [(-> & -> & e0 & p0 & n & He0 & B & _ & -> & _)|[-> _]]).
  - cbn in He, Hp. inversion He; inversion Hp; subst.
    assert (Ve : validUnits e = true).
    { destruct (exportUrl_viewable _ _ _ _ C He0) as [_ (q & Hq)];
        [reflexivity|].
      unfold buildMicrosoftOfficeViewer in B.
      destruct (previewUrl r0) as [p1|] eqn:P1.
      - exact (proj1 (preview_of _ _ _ _ _ C He0 P1) V).
      - destruct (result_shape _ _ _ C)
          as [[-> | ->]|(_ & _ & ? & _ & _ & _ & P & _)]; try discriminate.
        rewrite P in P1. discriminate. }
    split; [discriminate|]. split; [|intros [?|[?|?]]; discriminate].
    intros _ _. exact (proj2 (viewer_params e Ve) p B).
  - destruct (preview_of _ _ _ _ _ C He Hp) as [Ve K].
    specialize (Ve V). split; [|split].
    + intros ->. exact (proj1 (viewer_params e Ve) p K).
    + intros -> [F|G].
      * subst force.
        destruct (exportUrl_viewable _ _ _ _ C He) as [T (q & Hq)];
          [reflexivity|].
        unfold pageResult in H. rewrite C in H. cbn [bind] in H.
        rewrite He in H. cbn [isPpt andb] in H. rewrite T, Hq in H.
        cbn [bind] in H. inversion H as [R]. rewrite <- R in Hp at 1.
        cbn in Hp. inversion Hp; subst q.
        exact (proj2 (viewer_params e Ve) p Hq).
      * rewrite G in K. exact (proj2 (viewer_params e Ve) p K).
    + intros [->|[->| ->]]; exact K.
Qed.

Lemma X7_witness :
  validUnits sampleUnicodeLink = true /\
  exists r e p,
    pageResult sampleUnicodeLink ppt true = Normal r /\
    exportUrl r = Some e /\ previewUrl r = Some p /\
    (ppt = pdf -> decodedParam "url" p = Some (Normal e)) /\
    (ppt = ppt ->
     true = true \/ isProbablyGoogleLink sampleUnicodeLink = false ->
     decodedParam "src" p = Some (Normal e)) /\
    (ppt = image \/ ppt = video \/ ppt = audio -> p = e).
Proof.
  split; [vm_compute; reflexivity|].
  eexists. eexists. eexists.
  split; [vm_compute; reflexivity|].
  split; [reflexivity|]. split; [reflexivity|].
  eapply (X7_preview_shows_export_target sampleUnicodeLink ppt true);
    vm_compute; reflexivity.
Defined.

(** ** The page *)

Lemma pageResult_shape input type force r :
  pageResult input type force = Normal r ->
  (r = errorResult emptyInputError \/ r = errorResult malformedGoogleError)
  \/
  (error r = None /\
   exists e p,
     exportUrl r = Some e /\ truthy e = true /\
     previewUrl r = Some p /\ truthy p = true /\
     (type = ppt -> exists q, buildMicrosoftOfficeViewer e = Normal q)).
Proof.
  intros H.
  destruct (pageResult_cases _ _ _ _ H)
    as (r0 & C & [(-> & -> & e & p & n & He & B & _ & -> & _)|[-> _]]).
  - right. split; [reflexivity|]. exists e, p.
    destruct (exportUrl_viewable _ _ _ _ C He) as [T _].
    repeat split; try assumption.
    + unfold buildMicrosoftOfficeViewer in B.
      destruct (encodeURIComponent e); [|discriminate].
      inversion B. reflexivity.
    + intros _. exists p. exact B.
  - destruct (result_shape _ _ _ C)
      as [E|(Er & e & p & n & He & Te & Hp & Tp & _)]; [left; exact E|].
    right. split; [exact Er|]. exists e, p. repeat split; try assumption.
    exact (proj2 (exportUrl_viewable _ _ _ _ C He)).
Qed.

(** X8.  What the page renders for a result.  With an error: the
    placeholder box (heading "Paste a link to preview") stands in the
    preview area instead of the preview component, the copy button is
    disabled and no Microsoft viewer alternative is shown.  Without an
    error: the preview component stands there and renders an element whose
    source is the preview URL and whose kind follows the type (an iframe
    for ppt and pdf, an image, a video or an audio element), the copy
    button is enabled, and, for ppt, a Microsoft viewer URL among the
    alternatives is computed without throwing. *)
Theorem X8_page_renders_result (input : jsstring) (type : FileType)
    (force : bool) (r : ConvertResult) :
  pageResult input type force = Normal r ->
  (error r <> None ->
   previewArea type r =
     Placeholder (lit "Paste a link to preview")
       (lit "Choose a file type, paste a link, and the preview will render here.") /\
   Preview type r = None /\
   copyDisabled r = true /\
   alternativeViewerUrl type r = None) /\
  (error r = None ->
   exists p,
     previewUrl r = Some p /\ copyDisabled r = false /\
     previewArea type r =
       PreviewComponent
         (Some (match type with
                | ppt => Iframe (lit "PPT Preview") p true
                | pdf => Iframe (lit "PDF Preview") p false
                | image => Img p (lit "Preview") (lit "lazy")
                | video => VideoElement p true
                | audio => AudioElement p true
                end)) /\
     (type = ppt ->
      exists q, alternativeViewerUrl type r = Some (Normal q)) /\
     (type <> ppt -> alternativeViewerUrl type r = None)).
Proof.
  intros H.
  destruct (pageResult_shape _ _ _ _ H)
    as [[-> | ->]|(Er & e & p & He & Te & Hp & Tp & V)].
  - split; [intros _; repeat split | discriminate].
  - split; [intros _; repeat split | discriminate].
  - split; [rewrite Er; contradiction|]. intros _. exists p.
    unfold previewArea, Preview, copyDisabled, outputUrl, alternativeViewerUrl.
    rewrite Hp, He, Er. cbn [truthyOpt]. rewrite Tp, Te. cbn [negb orb].
    repeat split.
    + destruct type; reflexivity.
    + intros ->. destruct (V eq_refl) as (q & Hq). exists q.
      rewrite Hq. reflexivity.
    + intros N. destruct type; try reflexivity. contradiction.
Qed.

Lemma X8_witness :
  exists r,
    pageResult sampleUpperLink ppt true = Normal r /\
    (error r <> None ->
     previewArea ppt r =
       Placeholder (lit "Paste a link to preview")
         (lit "Choose a file type, paste a link, and the preview will render here.") /\
     Preview ppt r = None /\
     copyDisabled r = true /\
     alternativeViewerUrl ppt r = None) /\
    (error r = None ->
     exists p,
       previewUrl r = Some p /\ copyDisabled r = false /\
       previewArea ppt r =
         PreviewComponent (Some (Iframe (lit "PPT Preview") p true)) /\
       (ppt = ppt ->
        exists q, alternativeViewerUrl ppt r = Some (Normal q)) /\
       (ppt <> ppt -> alternativeViewerUrl ppt r = None)).
Proof.
  eexists. split; [vm_compute; reflexivity|].
  apply (X8_page_renders_result sampleUpperLink ppt true).
  vm_compute; reflexivity.
Defined.

Lemma step_invariant s ev :
  (stForceMsViewer s = true -> stType s = ppt) ->
  stForceMsViewer (step s ev) = true -> stType (step s ev) = ppt.
Proof.
  intros I. unfold step.
  destruct ev as [t| |i| | |]; cbn [available handle];
    try (unfold typeEffect; cbn [stType stForceMsViewer];
         destruct (stType s); cbn; exact I).
  - unfold typeEffect. cbn [stType stForceMsViewer stInput stCopied].
    destruct (sameType (stType s) t) eqn:S.
    + assert (stType s = t) by (destruct (stType s), t; try discriminate; reflexivity).
      subst t. exact I.
    + destruct t; cbn; try discriminate. reflexivity.
  - destruct (isPpt (stType s)) eqn:P; [|exact I].
    unfold typeEffect. cbn [stType stForceMsViewer].
    intros _. destruct (stType s); try discriminate; reflexivity.
Qed.

(** X9.  The Microsoft-viewer toggle is on only while the type is ppt:
    in every state the page reaches from its initial state, when the
    toggle is on the type is ppt; and when the type is not ppt, the result
    the page shows is the one [convertLink] gives. *)
Theorem X9_toggle_only_for_ppt (evs : list Event) :
  (stForceMsViewer (run evs) = true -> stType (run evs) = ppt) /\
  (stType (run evs) <> ppt ->
   stForceMsViewer (run evs) = false /\
   shownResult (run evs) = convertLink (stInput (run evs)) (stType (run evs))).
Proof.
  assert (I : stForceMsViewer (run evs) = true -> stType (run evs) = ppt).
  { unfold run.
    assert (G : forall s, (stForceMsViewer s = true -> stType s = ppt) ->
                stForceMsViewer (fold_left step evs s) = true ->
                stType (fold_left step evs s) = ppt).
    { induction evs as [|ev evs IH]; intros s Hs; [exact Hs|].
      simpl. apply IH. apply step_invariant. exact Hs. }
    apply G. discriminate. }
  split; [exact I|]. intros N.
  assert (F : stForceMsViewer (run evs) = false).
  { destruct (stForceMsViewer (run evs)); [|reflexivity].
    elim N. apply I. reflexivity. }
  split; [exact F|]. unfold shownResult, pageResult. rewrite F.
  destruct (convertLink _ _) as [r|]; [|reflexivity]. cbn [bind].
  destruct (exportUrl r); [|reflexivity].
  rewrite andb_false_r. reflexivity.
Qed.

Lemma X9_witness :
  (stForceMsViewer (run [ClickToggle; ClickType pdf; ClickToggle]) = true ->
   stType (run [ClickToggle; ClickType pdf; ClickToggle]) = ppt) /\
  (stType (run [ClickToggle; ClickType pdf; ClickToggle]) <> ppt ->
   stForceMsViewer (run [ClickToggle; ClickType pdf; ClickToggle]) = false /\
   shownResult (run [ClickToggle; ClickType pdf; ClickToggle]) =
     convertLink (stInput (run [ClickToggle; ClickType pdf; ClickToggle]))
       (stType (run [ClickToggle; ClickType pdf; ClickToggle]))).
Proof.
  exact (X9_toggle_only_for_ppt [ClickToggle; ClickType pdf; ClickToggle]).
Defined.

(** ** classNames and the table of file types *)

Lemma join_truthy sep l :
  l <> [] -> Forall (fun x => truthy x = true) l -> truthy (join sep l) = true.
Proof.
  intros Hne H. destruct H as [|x l Hx _]; [contradiction|].
  destruct x as [|c x]; [discriminate|].
  simpl. destruct l; reflexivity.
Qed.

Lemma join_app sep a b :
  a <> [] -> b <> [] -> join sep (a ++ b) = join sep a ++ sep ++ join sep b.
Proof.
  intros Ha Hb. induction a as [|x a IH]; [contradiction|].
  destruct a as [|y a].
  - simpl. destruct b; [contradiction | reflexivity].
  - change ((x :: y :: a) ++ b) with (x :: (y :: a) ++ b).
    cbn [join]. simpl app at 1.
    change (y :: a ++ b) with ((y :: a) ++ b).
    rewrite (IH ltac:(discriminate)). cbn [join].
    rewrite <- !app_assoc. reflexivity.
Qed.

Lemma kept_truthy xs :
  Forall (fun x => truthy x = true) (map argString (filter classTruthy xs)).
Proof.
  induction xs as [|x xs IH]; simpl; [constructor|].
  destruct (classTruthy x) eqn:T; [|exact IH].
  simpl. constructor; [|exact IH]. destruct x; try discriminate. exact T.
Qed.

Lemma classNames_truthy xs :
  truthy (classNames xs) = negb (match filter classTruthy xs with
                                 | [] => true | _ => false end).
Proof.
  unfold classNames. pose proof (kept_truthy xs) as K.
  destruct (filter classTruthy xs) as [|x l]; [reflexivity|].
  apply join_truthy; [discriminate | exact K].
Qed.

(** X10.  [classNames] joins the truthy arguments with single spaces:
    a falsy argument ([false], [undefined], [null], the empty string)
    leaves no trace wherever it stands, the result is empty exactly when no
    argument is truthy, and calls nest: the class string of two lists
    together is the class string of their two class strings. *)
Theorem X10_classNames_composes (xs ys : list ClassArg) :
  (forall x, classTruthy x = false ->
             classNames (xs ++ x :: ys) = classNames (xs ++ ys)) /\
  (classNames xs = [] <-> forall x, In x xs -> classTruthy x = false) /\
  classNames (xs ++ ys) =
    classNames [CStr (classNames xs); CStr (classNames ys)].
Proof.
  split; [|split].
  - intros x Hx. unfold classNames. rewrite !filter_app. simpl.
    rewrite Hx. reflexivity.
  - pose proof (classNames_truthy xs) as T. split.
    + intros E x Hx. rewrite E in T. simpl in T.
      destruct (classTruthy x) eqn:C; [|reflexivity].
      assert (I : In x (filter classTruthy xs))
        by (apply filter_In; split; assumption).
      destruct (filter classTruthy xs); [destruct I | discriminate].
    + intros H. unfold classNames.
      assert (E : filter classTruthy xs = []).
      { clear T. induction xs as [|x l IH]; [reflexivity|]. simpl.
        rewrite (H x (or_introl eq_refl)). apply IH.
        intros y Hy. apply H. right. exact Hy. }
      rewrite E. reflexivity.
  - pose proof (classNames_truthy xs) as Tx.
    pose proof (classNames_truthy ys) as Ty.
    unfold classNames at 2. cbn [filter classTruthy]. rewrite Tx, Ty.
    unfold classNames. rewrite filter_app, map_app.
    destruct (filter classTruthy xs) as [|x l] eqn:Ex;
      destruct (filter classTruthy ys) as [|y m] eqn:Ey; cbn [negb map argString].
    + reflexivity.
    + reflexivity.
    + rewrite app_nil_r. reflexivity.
    + change (argString x :: map argString l)
        with (map argString (x :: l)).
      change (argString y :: map argString m)
        with (map argString (y :: m)).
      rewrite join_app by discriminate. reflexivity.
Qed.

(** X11.  The table of file types has one entry per type, in the order
    ppt, pdf, image, video, audio: for every type the lookup the page does
    finds an entry, it is the only entry with that key, and its label and
    description are not empty. *)
Theorem X11_file_type_lookup (type : FileType) :
  map key FILE_TYPES = [ppt; pdf; image; video; audio] /\
  exists entry,
    findFileType type = Some entry /\ key entry = type /\
    truthy (label entry) = true /\ truthy (description entry) = true /\
    forall other, In other FILE_TYPES -> key other = type -> other = entry.
Proof.
  split; [reflexivity|].
  destruct type; eexists; (split; [reflexivity|]);
    (split; [reflexivity|]); (split; [reflexivity|]);
    (split; [reflexivity|]);
    intros other [<-|[<-|[<-|[<-|[<-|[]]]]]] K;
    solve [reflexivity | discriminate K].
Qed.

(** ** More about the result *)

(** X12.  Which fields a result without error has.  The identifier is
    there exactly for a Google-hosted input, and it is the extracted one;
    the embed URL is there exactly for a Google-hosted input resolved for
    ppt; for an input that is not Google-hosted the export URL is the
    trimmed input, whatever the type. *)
Theorem X12_fields_follow_classification (input : jsstring)
    (type : FileType) (r : ConvertResult) :
  convertLink input type = Normal r -> error r = None ->
  (fileId r <> None <-> isProbablyGoogleLink input = true) /\
  (fileId r = extractGoogleFileId (if isProbablyGoogleLink input
                                   then input else [])) /\
  (embedUrl r <> None <-> isProbablyGoogleLink input = true /\ type = ppt) /\
  (isProbablyGoogleLink input = false -> exportUrl r = Some (trim input)).
Proof.
  intros H Er.
  destruct (convertLink_cases input type)
    as [[_ E]|[(_ & _ & _ & E)|[(id & _ & G & X & E)|(T & G & E)]]];
    rewrite E in H.
  - inversion H; subst r. discriminate.
  - inversion H; subst r. discriminate.
  - rewrite G, X.
    assert (F : fileId r = Some id /\
                (embedUrl r <> None <-> type = ppt)).
    { destruct type; cbn [convertGoogle] in H;
        try (inversion H; subst r; split; [reflexivity|];
             split; [intros N; try reflexivity; elim N; reflexivity
                    | discriminate]).
      destruct (buildDocsViewer _); [|discriminate].
      inversion H; subst r. split; [reflexivity|].
      split; [intros N; elim N; reflexivity | discriminate]. }
    destruct F as [F1 F2]. rewrite F1. split; [|split; [|split]].
    + split; [reflexivity | discriminate].
    + reflexivity.
    + split; [intros N; split; [reflexivity | apply F2; exact N]
             | intros [_ Ht]; apply F2; exact Ht].
    + discriminate.
  - rewrite G.
    assert (F : fileId r = None /\ embedUrl r = None /\
                exportUrl r = Some (trim input)).
    { destruct type; cbn [convertDirect] in H;
        try (inversion H; subst r; repeat split).
      - destruct (buildMicrosoftOfficeViewer _); [|discriminate].
        inversion H; subst r. repeat split.
      - destruct (buildDocsViewer _); [|discriminate].
        inversion H; subst r. repeat split. }
    destruct F as (F1 & F2 & F3). rewrite F1, F2. split; [|split; [|split]].
    + split; [intros N; elim N; reflexivity | discriminate].
    + reflexivity.
    + split; [intros N; elim N; reflexivity | intros [N _]; discriminate].
    + intros _. exact F3.
Qed.

Lemma X12_witness :
  exists r,
    convertLink samplePaddedLink pdf = Normal r /\ error r = None /\
    (fileId r <> None <-> isProbablyGoogleLink samplePaddedLink = true) /\
    (fileId r = extractGoogleFileId
                  (if isProbablyGoogleLink samplePaddedLink
                   then samplePaddedLink else [])) /\
    (embedUrl r <> None <->
     isProbablyGoogleLink samplePaddedLink = true /\ pdf = ppt) /\
    (isProbablyGoogleLink samplePaddedLink = false ->
     exportUrl r = Some (trim samplePaddedLink)).
Proof.
  eexists. split; [vm_compute; reflexivity|]. split; [reflexivity|].
  apply (X12_fields_follow_classification samplePaddedLink pdf);
    [vm_compute; reflexivity | reflexivity].
Defined.

Lemma escapeCodePoint_alphabet cp :
  cp <= 1114111 ->
  Forall (fun c => escapedChar c = true) (escapeCodePoint cp).
Proof.
  intros H. pose proof (utf8_octets cp H) as O. unfold escapeCodePoint.
  assert (Hx : forall n, n < 16 -> escapedChar (hexDigit n) = true).
  { intros n Hn. unfold escapedChar, hexDigit.
    destruct (unescaped _); [reflexivity|]. case_if; lia. }
  induction O as [|b l Hb _ IH]; cbn [flat_map]; [constructor|].
  apply Forall_app. split; [|exact IH]. unfold percent.
  apply Forall_cons; [reflexivity|].
  apply Forall_cons; [apply Hx; lia|].
  apply Forall_cons; [apply Hx; lia|]. apply Forall_nil.
Qed.

Lemma encodeURIComponent_alphabet : forall s e,
  validUnits s = true ->
  encodeURIComponent s = Normal e ->
  Forall (fun c => escapedChar c = true) e.
Proof.
  induction s as [|c r IH1 IH2] using jsstring_pair_ind; intros e V He.
  - inversion He. constructor.
  - cbn [encodeURIComponent] in He. cbn [validUnits forallb] in V.
    apply andb_true_iff in V. destruct V as [Vc V].
    destruct (unescaped c) eqn:U.
    + destruct (encodeURIComponent r) as [e'|] eqn:R; [|discriminate].
      inversion He; subst e. constructor; [|apply IH1; [exact V | reflexivity]].
      unfold escapedChar. rewrite U. reflexivity.
    + destruct (isLowSurrogate c); [discriminate|].
      destruct (isHighSurrogate c) eqn:Hh.
      * destruct r as [|d r']; [discriminate|].
        destruct (isLowSurrogate d) eqn:Hd; [|discriminate].
        destruct (encodeURIComponent r') as [e'|] eqn:R; [|discriminate].
        inversion He; subst e. cbn [validUnits forallb] in V.
        apply andb_true_iff in V. destruct V as [_ V].
        apply Forall_app. split.
        -- apply escapeCodePoint_alphabet.
           unfold pairCodePoint, isHighSurrogate, isLowSurrogate in *. lia.
        -- apply (IH2 d r' eq_refl); [exact V | exact R].
      * destruct (encodeURIComponent r) as [e'|] eqn:R; [|discriminate].
        inversion He; subst e. apply Forall_app. split.
        -- apply escapeCodePoint_alphabet. lia.
        -- apply IH1; [exact V | reflexivity].
Qed.

Lemma queryParam_docsViewer_flag e :
  Forall (fun c => fieldChar c = true) e ->
  queryParam "embedded"
    (lit "https://docs.google.com/gview?embedded=true&url=" ++ e)
  = Some (lit "true").
Proof.
  intros H. destruct (fieldChars_query e H) as [Ht Hs].
  unfold queryParam.
  change (afterChar 63
            (lit "https://docs.google.com/gview?embedded=true&url=" ++ e))
    with (Some (lit "embedded=true&url=" ++ e)).
  cbv iota.
  change (takeWhile (fun c => negb (c =? 35)) (lit "embedded=true&url=" ++ e))
    with (lit "embedded=true&url="
          ++ takeWhile (fun c => negb (c =? 35)) e).
  rewrite Ht.
  change (lit "embedded=true&url=" ++ e)
    with (lit "embedded=true" ++ 38 :: lit "url=" ++ e).
  cbn [lit list_ascii_of_string map app splitOn].
  cbn. reflexivity.
Qed.

(** X13.  The file URL cannot disturb the viewer URL.  Whatever the file
    URL is, when the viewer URLs are produced the encoded part is made
    only of unescaped characters, [%] and upper-case hexadecimal digits
    (so it holds no [&], [=], [#] or [?]); the document viewer URL is read
    back with [embedded] equal to [true] and [url] equal to the encoded
    part, and the office viewer URL with [src] equal to the encoded part
    and no [url] parameter. *)
Theorem X13_viewer_url_is_well_formed (u g o : jsstring) :
  validUnits u = true ->
  buildDocsViewer u = Normal g ->
  buildMicrosoftOfficeViewer u = Normal o ->
  exists e,
    encodeURIComponent u = Normal e /\
    Forall (fun c => escapedChar c = true) e /\
    Forall (fun c => ~ In c (lit "&=#?/ ")) e /\
    queryParam "embedded" g = Some (lit "true") /\
    queryParam "url" g = Some e /\
    queryParam "src" o = Some e /\ queryParam "url" o = None.
Proof.
  unfold buildDocsViewer, buildMicrosoftOfficeViewer.
  intros V. destruct (encodeURIComponent u) as [e|] eqn:He; [|discriminate].
  cbn [bind]. intros Hg Ho.
  apply (f_equal (fun c => match c with Normal a => a | Throw _ => [] end))
    in Hg, Ho. cbv beta iota in Hg, Ho. subst g o.
  pose proof (encodeURIComponent_fieldChars _ _ He) as F.
  pose proof (encodeURIComponent_alphabet _ _ V He) as A.
  exists e. split; [reflexivity|]. split; [exact A|]. split.
  - eapply Forall_impl; [|exact A]. intros c Hc Hin.
    unfold escapedChar in Hc. rewrite unescaped_spec in Hc.
    change (lit "&=#?/ ") with [38; 61; 35; 63; 47; 32] in Hin.
    simpl in Hin. lia.
  - split; [exact (queryParam_docsViewer_flag _ F)|].
    split; [exact (queryParam_docsViewer _ F)|].
    exact (queryParam_officeViewer _ F).
Qed.

Lemma X13_witness :
  validUnits sampleUnicodeLink = true /\
  exists g o,
    buildDocsViewer sampleUnicodeLink = Normal g /\
    buildMicrosoftOfficeViewer sampleUnicodeLink = Normal o /\
    exists e,
      encodeURIComponent sampleUnicodeLink = Normal e /\
      Forall (fun c => escapedChar c = true) e /\
      Forall (fun c => ~ In c (lit "&=#?/ ")) e /\
      queryParam "embedded" g = Some (lit "true") /\
      queryParam "url" g = Some e /\
      queryParam "src" o = Some e /\ queryParam "url" o = None.
Proof.
  split; [vm_compute; reflexivity|].
  eexists. eexists.
  split; [vm_compute; reflexivity|]. split; [vm_compute; reflexivity|].
  apply (X13_viewer_url_is_well_formed sampleUnicodeLink);
    vm_compute; reflexivity.
Defined.

(** X14.  The error tells the cause.  In a returned result the error is
    the empty-input message exactly when the trimmed input is empty, the
    malformed-link message exactly when the input is classified
    Google-hosted and no identifier is extracted, and absent exactly in
    the remaining cases. *)
Theorem X14_error_tells_the_cause (input : jsstring) (type : FileType)
    (r : ConvertResult) :
  convertLink input type = Normal r ->
  (error r = Some emptyInputError <-> truthy (trim input) = false) /\
  (error r = Some malformedGoogleError <->
   isProbablyGoogleLink input = true /\ extractGoogleFileId input = None) /\
  (error r = None <->
   truthy (trim input) = true /\
   (isProbablyGoogleLink input = false \/ extractGoogleFileId input <> None)).
Proof.
  intros H.
  destruct (convertLink_error_cases _ _ _ H) as (A & B & C).
  assert (D : emptyInputError <> malformedGoogleError)
    by (vm_compute; discriminate).
  destruct (convertLink_cases input type)
    as [[T E]|[(T & G & X & E)|[(id & T & G & X & E)|(T & G & E)]]].
  - specialize (A T). rewrite A, T. split; [|split].
    + split; reflexivity.
    + split; [intros K; exfalso; apply D; congruence|].
      intros [G _]. rewrite (google_nonempty _ G) in T. discriminate.
    + split; [discriminate | intros [K _]; discriminate].
  - specialize (B G X). rewrite B, T, G, X. split; [|split].
    + split; [intros K; exfalso; apply D; congruence | discriminate].
    + split; [intros _; split; reflexivity | reflexivity].
    + split; [discriminate|].
      intros [_ [K|K]]; [discriminate | elim K; reflexivity].
  - assert (K : error r = None)
      by (apply C; [exact T | right; rewrite X; discriminate]).
    rewrite K, T, G, X. split; [|split].
    + split; discriminate.
    + split; [discriminate | intros [_ N]; discriminate].
    + split; [intros _; split; [reflexivity | right; discriminate]
             | reflexivity].
  - assert (K : error r = None) by (apply C; [exact T | left; exact G]).
    rewrite K, T, G. split; [|split].
    + split; discriminate.
    + split; [discriminate | intros [N _]; discriminate].
    + split; [intros _; split; [reflexivity | left; reflexivity]
             | reflexivity].
Qed.

Lemma X14_witness :
  exists r,
    convertLink sampleUpperLink audio = Normal r /\
    (error r = Some emptyInputError <->
     truthy (trim sampleUpperLink) = false) /\
    (error r = Some malformedGoogleError <->
     isProbablyGoogleLink sampleUpperLink = true /\
     extractGoogleFileId sampleUpperLink = None) /\
    (error r = None <->
     truthy (trim sampleUpperLink) = true /\
     (isProbablyGoogleLink sampleUpperLink = false \/
      extractGoogleFileId sampleUpperLink <> None)).
Proof.
  eexists. split; [vm_compute; reflexivity|].
  apply (X14_error_tells_the_cause sampleUpperLink audio).
  vm_compute; reflexivity.
Defined.

(** X15.  Two links to the same file give the same result.  When two
    inputs are classified Google-hosted and give the same identifier,
    [convertLink] returns the same for both for ppt, image, video and
    audio; for pdf it does when, in addition, the two inputs agree on
    containing [docs.google.com/presentation] and
    [docs.google.com/document]. *)
Theorem X15_same_identifier_same_result (a b id : jsstring)
    (type : FileType) :
  isProbablyGoogleLink a = true -> isProbablyGoogleLink b = true ->
  extractGoogleFileId a = Some id -> extractGoogleFileId b = Some id ->
  (type = pdf ->
   includes (lit "docs.google.com/presentation") (toLowerCase (trim a)) =
   includes (lit "docs.google.com/presentation") (toLowerCase (trim b)) /\
   includes (lit "docs.google.com/document") (toLowerCase (trim a)) =
   includes (lit "docs.google.com/document") (toLowerCase (trim b))) ->
  convertLink a type = convertLink b type.
Proof.
  intros Ga Gb Xa Xb Hp.
  rewrite (convertLink_google _ _ _ Ga Xa), (convertLink_google _ _ _ Gb Xb).
  destruct type; try reflexivity.
  destruct (Hp eq_refl) as [E1 E2]. cbn [convertGoogle]. rewrite E1, E2.
  destruct (includes (lit "docs.google.com/presentation")
              (toLowerCase (trim b))); [reflexivity|].
  destruct (includes (lit "docs.google.com/document")
              (toLowerCase (trim b))); [reflexivity|].
  destruct (includes (lit "docs.google.com/spreadsheets")
              (toLowerCase (trim a))),
           (includes (lit "docs.google.com/spreadsheets")
              (toLowerCase (trim b))); reflexivity.
Qed.

Lemma X15_witness :
  isProbablyGoogleLink sampleSlidesLink = true /\
  isProbablyGoogleLink (buildDriveDirectView sampleId) = true /\
  extractGoogleFileId sampleSlidesLink = Some sampleId /\
  extractGoogleFileId (buildDriveDirectView sampleId) = Some sampleId /\
  convertLink sampleSlidesLink image =
  convertLink (buildDriveDirectView sampleId) image.
Proof.
  split; [vm_compute; reflexivity|]. split; [vm_compute; reflexivity|].
  split; [vm_compute; reflexivity|]. split; [vm_compute; reflexivity|].
  apply (X15_same_identifier_same_result _ _ sampleId);
    try (vm_compute; reflexivity).
  discriminate.
Defined.

(** X16.  Different files never share a viewer URL: when the document
    viewer (or the office viewer) gives the same URL for two file URLs,
    the two file URLs are equal. *)
Theorem X16_viewer_urls_are_distinct (u1 u2 g : jsstring) :
  validUnits u1 = true -> validUnits u2 = true ->
  (buildDocsViewer u1 = Normal g /\ buildDocsViewer u2 = Normal g) \/
  (buildMicrosoftOfficeViewer u1 = Normal g /\
   buildMicrosoftOfficeViewer u2 = Normal g) ->
  u1 = u2.
Proof.
  intros V1 V2 [[H1 H2]|[H1 H2]].
  - pose proof (proj1 (viewer_params u1 V1) g H1) as D1.
    pose proof (proj1 (viewer_params u2 V2) g H2) as D2.
    rewrite D1 in D2. inversion D2. reflexivity.
  - pose proof (proj2 (viewer_params u1 V1) g H1) as D1.
    pose proof (proj2 (viewer_params u2 V2) g H2) as D2.
    rewrite D1 in D2. inversion D2. reflexivity.
Qed.

Lemma X16_witness :
  validUnits sampleUnicodeLink = true /\
  exists g,
    buildDocsViewer sampleUnicodeLink = Normal g /\
    sampleUnicodeLink = sampleUnicodeLink.
Proof.
  split; [vm_compute; reflexivity|].
  eexists. split; [vm_compute; reflexivity|].
  eapply (X16_viewer_urls_are_distinct sampleUnicodeLink sampleUnicodeLink);
    [vm_compute; reflexivity | vm_compute; reflexivity |].
  left. split; vm_compute; reflexivity.
Defined.
